(** * Hookstate core: the Store write algorithm, notification fan-out and
      tracking-node cache invalidation, embedded from [core/src/index.ts].

    The state values of the library are plain JSON-like trees (objects,
    arrays, primitives) plus the [none] symbol and promise objects.  The
    embedding keeps the mutable fields of [Store], [Promised] and
    [StateMethodsImpl] as record fields and threads the store through a small
    state-and-exception monad: a JavaScript [throw] leaves the mutations made
    before it in place, so a computation returns an outcome together with the
    store.

    Conventions of the embedding.
    - JavaScript numbers that occur as editions, array indexes and numeric
      path segments are integers; they are modelled by [Z] (exact below
      2^53).  A number held as a state value is an integer or [NaN], the
      one number that is not strictly equal to itself.
    - Objects are property lists in insertion order; [Object_keys] yields
      the ECMAScript order (array-index keys ascending, then the others in
      insertion order).  Arrays are dense lists.
    - Behaviour that depends on the prototype chain, on boxed primitives, on
      array holes or on non-index keys of arrays is outside the modelled
      fragment and is reported by the outcome [Unmodelled], which is
      neither a success nor one of the library's errors. *)

From Stdlib Require Import ZArith String Ascii Lia.
From stdpp Require Import base option list strings pretty.

Set Warnings "-register-all".

Local Open Scope string_scope.
Local Open Scope Z_scope.

(** ** Paths *)

(** [string | number] *)
Inductive PathSegment : Type :=
| SNum (n : Z)
| SStr (s : string).

(** [export type Path = ReadonlyArray<string | number>] *)
Definition Path : Type := list PathSegment.

(** [const RootPath: Path = []] *)
Definition RootPath : Path := [].

(** ToPropertyKey: a number used as a property key is its decimal string. *)
Definition to_key (p : PathSegment) : string :=
  match p with
  | SNum n => pretty n
  | SStr s => s
  end.

(** ** Values *)

Inductive value : Type :=
| VUndefined
| VNull
| VBool (b : bool)
| VNum (n : Z)
| VNaN                                   (* the number [NaN] *)
| VStr (s : string)
| none                                   (* [export const none = Symbol('none')] *)
| VPromise (p : nat)                     (* a promise object, [p] is its identity *)
| VArray (l : list value)
| VObject (o : list (string * value)).

(** [Object(v) === v]: [v] is not a primitive. *)
Definition is_object (v : value) : bool :=
  match v with
  | VPromise _ | VArray _ | VObject _ => true
  | _ => false
  end.

(** [v === none] *)
Definition is_none (v : value) : bool :=
  match v with
  | none => true
  | _ => false
  end.

(** Truthiness of a value, as tested by [newValue ? ... : ...]. *)
Definition truthy (v : value) : bool :=
  match v with
  | VUndefined | VNull | VNaN => false
  | VBool b => b
  | VNum n => negb (n =? 0)
  | VStr s => negb (String.eqb s "")
  | none | VPromise _ | VArray _ | VObject _ => true
  end.

(** [a === b] when [a] is a primitive; objects compare by identity, which a
    tree of values does not carry, so the comparison is only used behind the
    guard [a !== Object(a)].  [NaN === NaN] is false. *)
Definition strict_eq_primitive (a b : value) : bool :=
  match a, b with
  | VUndefined, VUndefined => true
  | VNull, VNull => true
  | VBool x, VBool y => Bool.eqb x y
  | VNum x, VNum y => x =? y
  | VStr x, VStr y => String.eqb x y
  | none, none => true
  | _, _ => false
  end.

(** ** Property lists *)

Fixpoint props_get {A : Type} (k : string) (o : list (string * A)) : option A :=
  match o with
  | [] => None
  | (k', v) :: o' => if String.eqb k' k then Some v else props_get k o'
  end.

Definition props_has {A : Type} (k : string) (o : list (string * A)) : bool :=
  match props_get k o with
  | Some _ => true
  | None => false
  end.

(** [o[k] = v] on own properties: an existing key keeps its position, a new
    key is appended. *)
Fixpoint props_set {A : Type} (k : string) (v : A) (o : list (string * A))
  : list (string * A) :=
  match o with
  | [] => [(k, v)]
  | (k', v') :: o' =>
      if String.eqb k' k then (k, v) :: o' else (k', v') :: props_set k v o'
  end.

(** [delete o[k]] *)
Fixpoint props_delete {A : Type} (k : string) (o : list (string * A))
  : list (string * A) :=
  match o with
  | [] => []
  | (k', v') :: o' =>
      if String.eqb k' k then props_delete k o' else (k', v') :: props_delete k o'
  end.

(** ** Numeric keys *)

(** The value of a decimal digit, by its code unit. *)
Definition digit_value (c : ascii) : option Z :=
  let code := Z.of_N (N_of_ascii c) in
  if (48 <=? code) && (code <=? 57) then Some (code - 48) else None.

Fixpoint digits_value (acc : Z) (s : string) : option Z :=
  match s with
  | EmptyString => Some acc
  | String c s' =>
      match digit_value c with
      | Some d => digits_value (10 * acc + d) s'
      | None => None
      end
  end.

(** The integer a key denotes when the key is the canonical decimal string
    of an integer ([ToString(ToNumber(k)) === k]); [None] otherwise. *)
Definition canonical_integer (k : string) : option Z :=
  match k with
  | String "-"%char k' =>
      match digits_value 0 k' with
      | Some n => if String.eqb (pretty (- n)) k then Some (- n) else None
      | None => None
      end
  | _ =>
      match digits_value 0 k with
      | Some n => if String.eqb (pretty n) k then Some n else None
      | None => None
      end
  end.

(** An array index is a canonical integer key in [0, 2^32 - 2]. *)
Definition array_index (k : string) : option Z :=
  match canonical_integer k with
  | Some n => if (0 <=? n) && (n <? 2 ^ 32 - 1) then Some n else None
  | None => None
  end.

(** [Number(k)] for a property key [k].  [None] stands for [NaN].  Keys that
    are canonical decimal integers denote that integer; all other keys are
    taken to be [NaN] (the keys the library creates for array children are
    canonical, see [valueArrayImpl] and [nested]). *)
Definition Number (k : string) : option Z := canonical_integer k.

(** ** Sorting *)

Fixpoint insert_by {A : Type} (le : A -> A -> bool) (x : A) (l : list A) : list A :=
  match l with
  | [] => [x]
  | y :: l' => if le x y then x :: l else y :: insert_by le x l'
  end.

Definition sort_by {A : Type} (le : A -> A -> bool) (l : list A) : list A :=
  foldr (insert_by le) [] l.

(** [Array.prototype.sort()] without a comparator on an array of strings:
    ascending order of code units. *)
Definition sort_strings (l : list string) : list string :=
  sort_by String.leb l.

(** [Array.prototype.sort()] without a comparator on an array of numbers:
    the elements are compared through their string forms. *)
Definition sort_numbers_default (l : list Z) : list Z :=
  sort_by (fun a b => String.leb (pretty a) (pretty b)) l.

(** ** Objects *)

(** [Object.keys(o)]: array-index keys in ascending numeric order, then the
    remaining keys in insertion order. *)
Definition Object_keys {A : Type} (o : list (string * A)) : list string :=
  let ks := map fst o in
  let idx := omap (fun k => match array_index k with
                            | Some i => Some (i, k)
                            | None => None
                            end) ks in
  let str := filter (fun k => array_index k = None) ks in
  map snd (sort_by (fun a b => fst a <=? fst b) idx) ++ str.

(** [Object.values(o)] *)
Definition Object_values {A : Type} (o : list (string * A)) : list A :=
  omap (fun k => props_get k o) (Object_keys o).

(** Names found on [Object.prototype]; looking one of them up on an object
    that does not own it leaves the modelled fragment. *)
Definition on_Object_prototype (k : string) : bool :=
  bool_decide (k ∈ ["constructor"; "__proto__"; "hasOwnProperty"; "isPrototypeOf";
                    "propertyIsEnumerable"; "toLocaleString"; "toString"; "valueOf";
                    "__defineGetter__"; "__defineSetter__";
                    "__lookupGetter__"; "__lookupSetter__"]).

(** ** Outcomes *)

Inductive ErrorId : Type :=
| StateUsedInDependencyList
| InitStateToValueFromState
| SetStateToValueFromState
| GetStateWhenPromised
| SetStateWhenPromised
| SetStateNestedToPromised
| SetStateWhenDestroyed
| ToJson_Value
| ToJson_State
| GetProperty_Function
| GetUnknownPlugin.

Inductive Error : Type :=
| StateInvalidUsageError (path : Path) (id : ErrorId)
| TypeError                     (* raised by the JavaScript runtime *)
| Thrown (v : value).           (* [throw this.store.promised.error] *)

Inductive result (A : Type) : Type :=
| Ok (a : A)
| Throw (e : Error)
| Unmodelled.

Arguments Ok {A} a.
Arguments Throw {A} e.
Arguments Unmodelled {A}.

(** ** Property access on values *)

(** [target[p]] *)
Definition js_get (target : value) (p : PathSegment) : result value :=
  match target with
  | VUndefined | VNull => Throw TypeError
  | VObject o =>
      match props_get (to_key p) o with
      | Some v => Ok v
      | None => if on_Object_prototype (to_key p) then Unmodelled else Ok VUndefined
      end
  | VArray l =>
      match array_index (to_key p) with
      | Some i =>
          if i <? Z.of_nat (length l)
          then Ok (default VUndefined (l !! Z.to_nat i))
          else Ok VUndefined
      | None =>
          if String.eqb (to_key p) "length" then Ok (VNum (Z.of_nat (length l)))
          else Unmodelled
      end
  | _ => Unmodelled
  end.

(** [p in target] *)
Definition js_in (p : PathSegment) (target : value) : result bool :=
  match target with
  | VObject o =>
      if props_has (to_key p) o then Ok true
      else if on_Object_prototype (to_key p) then Unmodelled
      else Ok false
  | VArray l =>
      match array_index (to_key p) with
      | Some i => Ok (i <? Z.of_nat (length l))
      | None => Unmodelled
      end
  | VPromise _ => Unmodelled
  | _ => Throw TypeError
  end.

(** [target[p] = v]; the result is the mutated [target]. *)
Definition js_set (target : value) (p : PathSegment) (v : value) : result value :=
  match target with
  | VUndefined | VNull => Throw TypeError
  | VObject o =>
      if props_has (to_key p) o then Ok (VObject (props_set (to_key p) v o))
      else if on_Object_prototype (to_key p) then Unmodelled
      else Ok (VObject (props_set (to_key p) v o))
  | VArray l =>
      match array_index (to_key p) with
      | Some i =>
          if i <? Z.of_nat (length l) then Ok (VArray (<[Z.to_nat i:=v]> l))
          else if i =? Z.of_nat (length l) then Ok (VArray (l ++ [v]))
          else Unmodelled
      | None => Unmodelled
      end
  | _ => Unmodelled
  end.

(** [delete target[p]]; the result is the mutated [target]. *)
Definition js_delete (target : value) (p : PathSegment) : result value :=
  match target with
  | VUndefined | VNull => Throw TypeError
  | VObject o => Ok (VObject (props_delete (to_key p) o))
  | _ => Unmodelled
  end.

(** [l.splice(p, 1)]: a negative start counts from the end, a start beyond
    the end removes nothing. *)
Definition splice1 (l : list value) (p : Z) : list value :=
  let len := Z.of_nat (length l) in
  let start := if p <? 0 then Z.max (len + p) 0 else Z.min p len in
  delete (Z.to_nat start) l.

(** ** The outcome monad *)

Definition result_bind {A B : Type} (r : result A) (f : A -> result B) : result B :=
  match r with
  | Ok a => f a
  | Throw e => Throw e
  | Unmodelled => Unmodelled
  end.

Notation "'do' x <- r ; k" := (result_bind r (fun x => k))
  (at level 10, x pattern, r at level 100, k at level 200).

(** [Number(k)] where the key has to denote an integer: other keys leave
    the modelled fragment. *)
Definition Number_of_key (k : string) : result Z :=
  match Number k with
  | Some n => Ok n
  | None => Unmodelled
  end.

Fixpoint result_map {A B : Type} (f : A -> result B) (l : list A) : result (list B) :=
  match l with
  | [] => Ok []
  | a :: l' => do b <- f a; do bs <- result_map f l'; Ok (b :: bs)
  end.

(** ** Action descriptors *)

(** ["I" | "U" | "D"] *)
Inductive action : Type := I | U | D.

Definition action_eqb (a b : action) : bool :=
  match a, b with
  | I, I | U, U | D, D => true
  | _, _ => false
  end.

(** [interface SetActionDescriptor { path: Path, actions?: Record<...> }] *)
Record SetActionDescriptor : Type := mkAd {
  path : Path;
  actions : option (list (string * action))
}.

(** ** Rerender callbacks *)

(** An [onSetUsed] function object: [fn] is its identity, [UnmountedMarker]
    the property of that name on it. *)
Record Callback : Type := mkCallback {
  fn : nat;
  UnmountedMarker : bool
}.

(** [function OnSetUsedNoAction() {}] with [OnSetUsedNoAction[UnmountedMarker] = true] *)
Definition OnSetUsedNoAction : Callback := mkCallback 0 true.

(** [Set<() => void>] in insertion order; membership is by identity. *)
Definition Set_has (c : Callback) (s : list Callback) : bool :=
  existsb (fun c' => Nat.eqb (fn c') (fn c)) s.

Definition Set_add (c : Callback) (s : list Callback) : list Callback :=
  if Set_has c s then s else s ++ [c].

(** ** Tracking nodes *)

(** The value cache of a node: the marker [ValueUnusedMarker] or the value
    handed out by [get] (the plain value, or a proxy over it). *)
Inductive ValueUsed : Type :=
| ValueUnusedMarker
| Used (proxied : bool) (v : value).

Definition is_used (u : ValueUsed) : bool :=
  match u with
  | ValueUnusedMarker => false
  | Used _ _ => true
  end.

(** The mutable fields of [class StateMethodsImpl].  [selfUsed] records
    whether the cached self proxy is defined.  [childrenCreated] is only
    consulted by [child] and [reconstruct] and is not kept. *)
Inductive StateMethodsImpl : Type := mkStateMethodsImpl {
  this_path : Path;
  valueSource : value;
  valueEdition : Z;
  onSetUsed : Callback;
  downgraded : bool;
  childrenUsed : option (list (string * StateMethodsImpl));
  selfUsed : bool;
  valueUsed : ValueUsed;
  subscribers : option (list StateMethodsImpl)
}.

Definition set_valueSource (v : value) (e : Z) (n : StateMethodsImpl) : StateMethodsImpl :=
  mkStateMethodsImpl (this_path n) v e (onSetUsed n) (downgraded n)
    (childrenUsed n) (selfUsed n) (valueUsed n) (subscribers n).

Definition set_valueUsed (u : ValueUsed) (n : StateMethodsImpl) : StateMethodsImpl :=
  mkStateMethodsImpl (this_path n) (valueSource n) (valueEdition n) (onSetUsed n)
    (downgraded n) (childrenUsed n) (selfUsed n) u (subscribers n).

Definition set_downgraded (b : bool) (n : StateMethodsImpl) : StateMethodsImpl :=
  mkStateMethodsImpl (this_path n) (valueSource n) (valueEdition n) (onSetUsed n)
    b (childrenUsed n) (selfUsed n) (valueUsed n) (subscribers n).

Definition set_childrenUsed (c : option (list (string * StateMethodsImpl)))
  (n : StateMethodsImpl) : StateMethodsImpl :=
  mkStateMethodsImpl (this_path n) (valueSource n) (valueEdition n) (onSetUsed n)
    (downgraded n) c (selfUsed n) (valueUsed n) (subscribers n).

Definition set_subscribers (s : option (list StateMethodsImpl))
  (n : StateMethodsImpl) : StateMethodsImpl :=
  mkStateMethodsImpl (this_path n) (valueSource n) (valueEdition n) (onSetUsed n)
    (downgraded n) (childrenUsed n) (selfUsed n) (valueUsed n) s.

(** [delete this.selfUsed] *)
Definition delete_selfUsed (n : StateMethodsImpl) : StateMethodsImpl :=
  mkStateMethodsImpl (this_path n) (valueSource n) (valueEdition n) (onSetUsed n)
    (downgraded n) (childrenUsed n) false (valueUsed n) (subscribers n).

(** [Array.isArray(v)] *)
Definition Array_isArray (v : value) : bool :=
  match v with
  | VArray _ => true
  | _ => false
  end.

(** ** [StateMethodsImpl.onSet] *)

Definition is_D (a : option action) : bool :=
  match a with
  | Some D => true
  | _ => false
  end.

(** [Object.values(ad.actions).includes("D")] *)
Definition includes_D (acts : list (string * action)) : bool :=
  existsb (fun a => action_eqb a D) (Object_values acts).

(** [Object.keys(ad.actions).map(i => Number(i)).sort().find(i => ad.actions?.[i] === "D")];
    [None] in the outcome stands for [undefined]. *)
Definition firstDeletedIndex (acts : list (string * action)) : result (option Z) :=
  do ns <- result_map Number_of_key (Object_keys acts);
  Ok (List.find (fun i => is_D (props_get (pretty i) acts)) (sort_numbers_default ns)).

(** [Number(childKey) >= firstDeletedIndex]; a comparison with [undefined]
    is false. *)
Definition ge_first (n : Z) (first : option Z) : bool :=
  match first with
  | Some f => f <=? n
  | None => false
  end.

(** The loop [for (let childKey in this.childrenUsed)] of the array branch:
    the children that stay cached. *)
Fixpoint drop_after_first {A : Type} (first : option Z) (acts : list (string * action))
  (cs : list (string * A)) : result (list (string * A)) :=
  match cs with
  | [] => Ok []
  | (childKey, c) :: cs' =>
      do n <- Number_of_key childKey;
      do rest <- drop_after_first first acts cs';
      if ge_first n first || props_has childKey acts
      then Ok rest
      else Ok ((childKey, c) :: rest)
  end.

(** The loop [for (let childKey in ad.actions) delete this.childrenUsed[childKey]]. *)
Definition drop_actions {A : Type} (acts : list (string * action))
  (cs : list (string * A)) : list (string * A) :=
  foldl (fun cs childKey => props_delete childKey cs) cs (Object_keys acts).

(** The cache of children after a write that hit the node itself. *)
Definition invalidate_children {A : Type} (source : value)
  (acts : option (list (string * action))) (cs : option (list (string * A)))
  : result (option (list (string * A))) :=
  match acts, cs with
  | Some acts, Some cs =>
      if Array_isArray source && includes_D acts
      then do first <- firstDeletedIndex acts;
           do cs' <- drop_after_first first acts cs;
           Ok (Some cs')
      else Ok (Some (drop_actions acts cs))
  | _, _ => Ok None
  end.

(** [this.childrenUsed?.[nextChildKey]] and, when the child is cached, the
    call [nextChild.onSet(ad, actions)] given by [f]: the outcome is [None]
    when there is no such child, and otherwise the boolean returned by the
    child, the children with the child as the call left it, and the
    callbacks. *)
Fixpoint child_onSet {N : Type} (f : N -> result (bool * N * list Callback))
  (nextChildKey : string) (cs : list (string * N))
  : result (option (bool * list (string * N) * list Callback)) :=
  match cs with
  | [] => if on_Object_prototype nextChildKey then Unmodelled else Ok None
  | (k, c) :: cs' =>
      if String.eqb k nextChildKey
      then do r <- f c;
           Ok (Some (r.1.1, (k, r.1.2) :: cs', r.2))
      else do r <- child_onSet f nextChildKey cs';
           Ok (option_map
                 (fun r : bool * list (string * N) * list Callback =>
                    (r.1.1, (k, c) :: r.1.2, r.2)) r)
  end.

(** [this.subscribers.forEach(s => { if (s.onSet(ad, actions)) ... })], the
    call [s.onSet(ad, actions)] given by [f]: the outcome tells whether some
    call returned [true]. *)
Fixpoint subscribers_onSet {N : Type}
  (f : N -> list Callback -> result (bool * N * list Callback))
  (ss : list N) (acts : list Callback) : result (bool * list N * list Callback) :=
  match ss with
  | [] => Ok (false, [], acts)
  | s :: ss' =>
      do r <- f s acts;
      do rs <- subscribers_onSet f ss' r.2;
      Ok (r.1.1 || rs.1.1, r.1.2 :: rs.1.2, rs.2)
  end.

(** [onSet(ad, actions)]: the outcome carries the returned boolean, the node
    after the call and the set of collected callbacks. *)
Fixpoint onSet (this : StateMethodsImpl) (ad : SetActionDescriptor)
  (acts : list Callback) {struct this}
  : result (bool * StateMethodsImpl * list Callback) :=
  match this with
  | mkStateMethodsImpl p vs ve cb dg cu su vu subs =>
      let affected := dg && is_used vu in
      let acts0 := if affected then Set_add cb acts else acts in
      let su0 := if affected then false else su in
      do r <-
        match (path ad) !! (length p) with
        | None =>
            if is_used vu
            then do cu' <- invalidate_children vs (actions ad) cu;
                 Ok (true, cu', false, Set_add cb acts0)
            else Ok (affected, cu, su0, acts0)
        | Some nextChildKey =>
            match cu with
            | None => Ok (affected, cu, su0, acts0)
            | Some cs =>
                do r <- child_onSet (fun c => onSet c ad acts0) (to_key nextChildKey) cs;
                match r with
                | None => Ok (affected, cu, su0, acts0)
                | Some (true, cs', acts1) => Ok (true, Some cs', false, acts1)
                | Some (false, cs', acts1) => Ok (affected, Some cs', su0, acts1)
                end
            end
        end;
      let '(updated, cu1, su1, acts1) := r in
      match updated, subs with
      | false, Some ss =>
          do r <- subscribers_onSet (fun s acts => onSet s ad acts) ss acts1;
          let '(any, ss', acts2) := r in
          Ok (updated,
              mkStateMethodsImpl p vs ve cb dg cu1 (if any then false else su1) vu (Some ss'),
              acts2)
      | _, _ => Ok (updated, mkStateMethodsImpl p vs ve cb dg cu1 su1 vu subs, acts1)
      end
  end.

(** ** The store *)

(** [configuration.promiseDetector] *)
Record Configuration : Type := mkConfiguration {
  promiseDetector : value -> bool
}.

(** The default detector [(p) => Promise.resolve(p) === p]: exactly the
    native promise objects. *)
Definition default_configuration : Configuration :=
  mkConfiguration (fun p => match p with VPromise _ => true | _ => false end).

(** [class Promised].  [promised_id] is the identity of the object (the
    guard [this.promised === promised] compares it); [promise] records
    whether the constructor was given a source promise; [resolver] whether
    the field of that name is defined. *)
Record Promised : Type := mkPromised {
  promised_id : nat;
  promise : option value;
  fullfilled : bool;
  error : option value;
  resolver : bool
}.

(** [interface PluginCallbacksOnSetArgument]; a field that the code deletes
    is [None]. *)
Record PluginCallbacksOnSetArgument : Type := mkOnSetArg {
  arg_path : Path;
  arg_state : option value;
  arg_previous : option value;
  arg_value : option value;
  arg_merged : value
}.

(** [interface PluginCallbacks]: the identities of the two optional
    functions. *)
Record PluginCallbacks : Type := mkPluginCallbacks {
  plugin_onSet : option nat;
  plugin_onDestroy : option nat
}.

(** [interface Plugin]: [init] is the object the init function returns,
    [None] when the plugin has no init function. *)
Record Plugin : Type := mkPlugin {
  plugin_id : nat;
  plugin_init : option PluginCallbacks
}.

(** Calls the store makes into code it does not own, in the order they
    happen. *)
Inductive Event : Type :=
| PluginOnSet (cb : nat) (arg : PluginCallbacksOnSetArgument)
| PluginOnDestroy (cb : nat) (state : option value)
| ResolverCalled (promised : nat) (v : value)
| SubscriberOnSet (subscriber : nat) (ad : SetActionDescriptor)
| ActionCalled (a : Callback).

(** The fields of [class Store].  [_subscribers] holds the subscribed
    tracking nodes in insertion order.  [next_promised] supplies object
    identities for [new Promised], [trace] is the log of events. *)
Record Store : Type := mkStore {
  _edition : Z;
  _value : value;
  _promised : option Promised;
  _subscribers : list StateMethodsImpl;
  _setSubscribers : list nat;
  _destroySubscribers : list nat;
  _plugins : list (nat * PluginCallbacks);
  next_promised : nat;
  trace : list Event
}.

Definition set_edition (e : Z) (s : Store) : Store :=
  mkStore e (_value s) (_promised s) (_subscribers s) (_setSubscribers s)
    (_destroySubscribers s) (_plugins s) (next_promised s) (trace s).

Definition set_value (v : value) (s : Store) : Store :=
  mkStore (_edition s) v (_promised s) (_subscribers s) (_setSubscribers s)
    (_destroySubscribers s) (_plugins s) (next_promised s) (trace s).

Definition set_promised (p : option Promised) (s : Store) : Store :=
  mkStore (_edition s) (_value s) p (_subscribers s) (_setSubscribers s)
    (_destroySubscribers s) (_plugins s) (next_promised s) (trace s).

Definition set_store_subscribers (l : list StateMethodsImpl) (s : Store) : Store :=
  mkStore (_edition s) (_value s) (_promised s) l (_setSubscribers s)
    (_destroySubscribers s) (_plugins s) (next_promised s) (trace s).

Definition set_next_promised (n : nat) (s : Store) : Store :=
  mkStore (_edition s) (_value s) (_promised s) (_subscribers s) (_setSubscribers s)
    (_destroySubscribers s) (_plugins s) n (trace s).

Definition emit (evs : list Event) (s : Store) : Store :=
  mkStore (_edition s) (_value s) (_promised s) (_subscribers s) (_setSubscribers s)
    (_destroySubscribers s) (_plugins s) (next_promised s) (trace s ++ evs).

(** [const DestroyedEdition = -1] *)
Definition DestroyedEdition : Z := -1.

(** Stateful computations that may throw: an outcome together with the
    state as the computation left it. *)
Definition ST (S A : Type) : Type := S -> result A * S.

(** Computations on the store. *)
Definition M (A : Type) : Type := ST Store A.

Definition ret {S A : Type} (a : A) : ST S A := fun s => (Ok a, s).

Definition bind {S A B : Type} (m : ST S A) (f : A -> ST S B) : ST S B :=
  fun s =>
    match m s with
    | (Ok a, s') => f a s'
    | (Throw e, s') => (Throw e, s')
    | (Unmodelled, s') => (Unmodelled, s')
    end.

Definition throw {S A : Type} (e : Error) : ST S A := fun s => (Throw e, s).

Definition lift {S A : Type} (r : result A) : ST S A := fun s => (r, s).

Definition gets {S A : Type} (f : S -> A) : ST S A := fun s => (Ok (f s), s).

Definition modify {S : Type} (f : S -> S) : ST S unit := fun s => (Ok tt, f s).

Notation "'let*' x := m 'in' k" := (bind m (fun x => k))
  (at level 10, x pattern, m at level 100, k at level 200).

Notation "m ;; k" := (bind m (fun _ => k))
  (at level 100, k at level 200, right associativity).

(** [l.forEach(f)] with an accumulator threaded through the calls. *)
Fixpoint forEach {A S : Type} (l : list A) (f : S -> A -> M S) (acc : S) : M S :=
  match l with
  | [] => ret acc
  | a :: l' => let* acc' := f acc a in forEach l' f acc'
  end.

(** The loop [target = target[path[i]]] over the segments of [path]. *)
Fixpoint walk (target : value) (path : Path) : result value :=
  match path with
  | [] => Ok target
  | p :: path' => do t <- js_get target p; walk t path'
  end.

(** The root after the object reached from it along [path] has been mutated
    in place into [t]: values are trees, so the mutation is written back
    along the path. *)
Fixpoint put_at (root : value) (path : Path) (t : value) : result value :=
  match path with
  | [] => Ok t
  | p :: path' =>
      do c <- js_get root p;
      do c' <- put_at c path' t;
      js_set root p c'
  end.

(** [new Promised(newValue ? Promise.resolve(newValue) : undefined, ...)] as
    called by [createPromised]; the constructor defines [resolver] exactly
    when it is given no promise. *)
Definition createPromised (newValue : value) : M Promised :=
  let* id := gets next_promised in
  modify (set_next_promised (S id));;
  ret (mkPromised id (if truthy newValue then Some newValue else None)
         false None (negb (truthy newValue))).

(** [Store.get(path)] *)
Definition Store_get (path : Path) : M value :=
  let* result := gets _value in
  if is_none result then ret result
  else lift (walk result path).

(** [Store.afterSet(params)] *)
Definition Store_afterSet (params : PluginCallbacksOnSetArgument) : M unit :=
  let* e := gets _edition in
  if negb (e =? DestroyedEdition)
  then modify (set_edition (e + 1));;
       let* cbs := gets _setSubscribers in
       modify (emit (map (fun cb => PluginOnSet cb params) cbs))
  else ret tt.

Section WithConfiguration.

Variable configuration : Configuration.

(** [Object(value) === value && configuration.promiseDetector(value)] *)
Definition is_promise_like (v : value) : bool :=
  is_object v && promiseDetector configuration v.

(** The root branch of [Store.set]. *)
Definition Store_set_root (ad : SetActionDescriptor) (v mergeValue : value)
  : M SetActionDescriptor :=
  let* previous := gets _value in
  let onSetArg := mkOnSetArg (path ad) (Some v) (Some previous) (Some v) mergeValue in
  let* r :=
    if is_none v
    then let* p := createPromised VUndefined in
         modify (set_promised (Some p));;
         ret (v, mkOnSetArg (path ad) None (Some previous) None mergeValue)
    else if is_promise_like v
    then let* p := createPromised v in
         modify (set_promised (Some p));;
         ret (none, mkOnSetArg (path ad) None (Some previous) None mergeValue)
    else let* pr := gets _promised in
         match pr with
         | Some p =>
             if negb (resolver p) && negb (fullfilled p)
             then throw (StateInvalidUsageError (path ad) SetStateWhenPromised)
             else ret (v, onSetArg)
         | None => ret (v, onSetArg)
         end in
  let v' := r.1 in
  let* prevValue := gets _value in
  let onSetArg' :=
    if is_none prevValue
    then mkOnSetArg (arg_path r.2) (arg_state r.2) None (arg_value r.2) (arg_merged r.2)
    else r.2 in
  modify (set_value v');;
  Store_afterSet onSetArg';;
  let* pr := gets _promised in
  match pr with
  | Some p =>
      if is_none prevValue && negb (is_none v') && resolver p
      then modify (emit [ResolverCalled (promised_id p) v'])
      else ret tt
  | None => ret tt
  end;;
  ret ad.

(** The nested branch of [Store.set]: [parent] is [path.slice(0, -1)] and
    [p] is [path[path.length - 1]]. *)
Definition Store_set_nested (ad : SetActionDescriptor) (parent : Path) (p : PathSegment)
  (v mergeValue : value) : M SetActionDescriptor :=
  if is_promise_like v
  then throw (StateInvalidUsageError (path ad) SetStateNestedToPromised)
  else
    let* root := gets _value in
    let* target := lift (walk root parent) in
    let* present := lift (js_in p target) in
    if present
    then
      if negb (is_none v)
      then
        let* prevValue := lift (js_get target p) in
        let* target' := lift (js_set target p v) in
        let* root' := lift (put_at root parent target') in
        modify (set_value root');;
        Store_afterSet (mkOnSetArg (path ad) (Some root') (Some prevValue) (Some v) mergeValue);;
        ret ad
      else
        let* prevValue := lift (js_get target p) in
        let* target' :=
          lift (match target, p with
                | VArray l, SNum n => Ok (VArray (splice1 l n))
                | _, _ => js_delete target p
                end) in
        let* root' := lift (put_at root parent target') in
        modify (set_value root');;
        Store_afterSet (mkOnSetArg (path ad) (Some root') (Some prevValue) None mergeValue);;
        ret (mkAd parent (Some [(to_key p, D)]))
    else
      if negb (is_none v)
      then
        let* target' := lift (js_set target p v) in
        let* root' := lift (put_at root parent target') in
        modify (set_value root');;
        Store_afterSet (mkOnSetArg (path ad) (Some root') None (Some v) mergeValue);;
        ret (mkAd parent (Some [(to_key p, I)]))
      else ret ad.

(** [Store.set(ad, value, mergeValue)] *)
Definition Store_set (ad : SetActionDescriptor) (v mergeValue : value)
  : M SetActionDescriptor :=
  let* e := gets _edition in
  if e <? 0
  then throw (StateInvalidUsageError (path ad) SetStateWhenDestroyed)
  else
    match last (path ad) with
    | None => Store_set_root ad v mergeValue
    | Some p => Store_set_nested ad (removelast (path ad)) p v mergeValue
    end.

End WithConfiguration.

(** One call [s.onSet(ad, actions)] on the subscriber at position [i] of
    [_subscribers]; the subscriber is mutated in place. *)
Definition notify (ad : SetActionDescriptor) (acts : list Callback) (i : nat)
  : M (list Callback) :=
  let* ss := gets _subscribers in
  match ss !! i with
  | None => ret acts
  | Some s =>
      modify (emit [SubscriberOnSet i ad]);;
      let* r := lift (onSet s ad acts) in
      modify (set_store_subscribers (<[i := r.1.2]> ss));;
      ret r.2
  end.

(** [this._subscribers.forEach(s => s.onSet(ad, actions))] *)
Definition notify_all (ad : SetActionDescriptor) (acts : list Callback)
  : M (list Callback) :=
  let* ss := gets _subscribers in
  forEach (seq 0 (length ss)) (notify ad) acts.

(** [Object.values(ad.actions).findIndex(i => i !== "U") === -1] *)
Definition all_U (acts : list (string * action)) : bool :=
  forallb (fun a => action_eqb a U) (Object_values acts).

(** [Store.update(ad)]: the collected callbacks are called at the end; what
    a callback does when called is outside the store. *)
Definition Store_update (ad : SetActionDescriptor) : M unit :=
  let* acts :=
    match actions ad with
    | Some a =>
        if all_U a
        then forEach (Object_keys a)
               (fun acts key => notify_all (mkAd (path ad ++ [SStr key])%list None) acts) []
        else notify_all ad []
    | None => notify_all ad []
    end in
  modify (emit (map ActionCalled acts)).

(** [Store.destroy()] *)
Definition Store_destroy : M unit :=
  let* v := gets _value in
  let* cbs := gets _destroySubscribers in
  modify (emit (map (fun cb => PluginOnDestroy cb (if is_none v then None else Some v)) cbs));;
  modify (set_edition DestroyedEdition).

(** [Store.getPlugin(pluginId)] *)
Definition Store_getPlugin (pluginId : nat) (s : Store) : option PluginCallbacks :=
  snd <$> List.find (fun e => Nat.eqb (fst e) pluginId) (_plugins s).

(** [Store.register(plugin)]; each registration adds fresh closures around
    the callbacks of the plugin. *)
Definition Store_register (plugin : Plugin) : M unit :=
  let* existingInstance := gets (Store_getPlugin (plugin_id plugin)) in
  match existingInstance with
  | Some _ => ret tt
  | None =>
      let pluginCallbacks :=
        default (mkPluginCallbacks None None) (plugin_init plugin) in
      modify (fun s =>
        mkStore (_edition s) (_value s) (_promised s) (_subscribers s)
          (_setSubscribers s ++ option_list (plugin_onSet pluginCallbacks))
          (_destroySubscribers s ++ option_list (plugin_onDestroy pluginCallbacks))
          (_plugins s ++ [(plugin_id plugin, pluginCallbacks)])
          (next_promised s) (trace s))
  end.

(** [Store.subscribe(l)] for a tracking node that is not subscribed yet. *)
Definition Store_subscribe (l : StateMethodsImpl) : M unit :=
  modify (fun s => set_store_subscribers (_subscribers s ++ [l]) s).

(** [Store.unsubscribe(l)], the subscriber given by its position. *)
Definition Store_unsubscribe (i : nat) : M unit :=
  modify (fun s => set_store_subscribers (delete i (_subscribers s)) s).

(** A computation whose exception is caught and dropped. *)
Definition catch_all (m : M unit) : M unit :=
  fun s =>
    match m s with
    | (Throw _, s') => (Ok tt, s')
    | r => r
    end.

Section WithConfiguration.

Variable configuration : Configuration.

(** [new Store(_value)] *)
Definition Store_constructor (v : value) : Store :=
  let s := mkStore 0 v None [] [] [] [] 0 [] in
  if is_promise_like configuration v
  then snd ((let* p := createPromised v in
             modify (set_promised (Some p));;
             modify (set_value none)) s)
  else if is_none v
  then snd ((let* p := createPromised VUndefined in
             modify (set_promised (Some p))) s)
  else s.

(** The [onResolve] closure of [createPromised], for the [Promised] object
    with identity [id]. *)
Definition onResolve (id : nat) (r : value) : M unit :=
  let* pr := gets _promised in
  let* e := gets _edition in
  match pr with
  | Some p =>
      if Nat.eqb (promised_id p) id && negb (e =? DestroyedEdition)
      then modify (set_promised None);;
           let* ad := Store_set configuration (mkAd RootPath None) r VUndefined in
           Store_update ad
      else ret tt
  | None => ret tt
  end.

(** The [onReject] closure of [createPromised]. *)
Definition onReject (id : nat) : M unit :=
  let* pr := gets _promised in
  let* e := gets _edition in
  match pr with
  | Some p =>
      if Nat.eqb (promised_id p) id && negb (e =? DestroyedEdition)
      then modify (set_edition (e + 1));;
           Store_update (mkAd RootPath None)
      else ret tt
  | None => ret tt
  end.

(** The [.catch] handler of [Promised]; the fields of a [Promised] object
    that the store does not hold any more are not observable. *)
Definition Promised_catch (id : nat) (err : value) : M unit :=
  let* pr := gets _promised in
  match pr with
  | Some p =>
      if Nat.eqb (promised_id p) id
      then modify (set_promised
                     (Some (mkPromised (promised_id p) (promise p) true (Some err) (resolver p))));;
           onReject id
      else ret tt
  | None => ret tt
  end.

(** The [.then] handler of [Promised], run when the promise of the object
    with identity [id] is fulfilled with [r].  An exception of the handler
    is passed to the [.catch] handler, which then finds the object replaced
    in the store. *)
Definition Promised_then (id : nat) (r : value) : M unit :=
  let* pr := gets _promised in
  match pr with
  | Some p =>
      if Nat.eqb (promised_id p) id
      then modify (set_promised
                     (Some (mkPromised (promised_id p) (promise p) true (error p) (resolver p))));;
           if resolver p then ret tt else catch_all (onResolve id r)
      else ret tt
  | None => ret tt
  end.

End WithConfiguration.

(** ** Methods of tracking nodes *)

(** Computations of a method of a tracking node: [this] and its store. *)
Definition MN (A : Type) : Type := ST (StateMethodsImpl * Store) A.

Definition in_store {A : Type} (m : M A) : MN A :=
  fun ns => let r := m ns.2 in (r.1, (ns.1, r.2)).

Definition modify_this (f : StateMethodsImpl -> StateMethodsImpl) : MN unit :=
  modify (fun ns => (f ns.1, ns.2)).

(** [get isMounted()] *)
Definition isMounted (n : StateMethodsImpl) : bool :=
  negb (UnmountedMarker (onSetUsed n)).

(** The body of [get(allowPromised)] after its call of [getUntracked]:
    fill the value cache when it is unused, return the cached value. *)
Definition get_cached (currentValue : value) : MN ValueUsed :=
  let* n := gets fst in
  match valueUsed n with
  | ValueUnusedMarker =>
      if downgraded n
      then modify_this (set_valueUsed (Used false currentValue))
      else if Array_isArray currentValue
      then modify_this (set_valueUsed (Used true currentValue))
      else if is_object currentValue
      then match currentValue with
           | VObject o =>
               if props_has "constructor" o then lift Unmodelled
               else modify_this (set_valueUsed (Used true currentValue))
           | _ =>
               modify_this (set_downgraded true);;
               modify_this (set_valueUsed (Used false currentValue))
           end
      else modify_this (set_valueUsed (Used false currentValue))
  | Used _ _ => ret tt
  end;;
  gets (fun ns => valueUsed ns.1).

(** [getUntracked(allowPromised)].  The nested call [this.get(true)] runs
    with the edition just synchronised, so its own [getUntracked(true)]
    returns [valueSource] at once and the call reduces to [get_cached]. *)
Definition getUntracked (allowPromised : bool) : MN value :=
  let* n := gets fst in
  let* e := gets (fun ns => _edition ns.2) in
  (if negb (valueEdition n =? e)
   then
     let* v := in_store (Store_get (this_path n)) in
     modify_this (set_valueSource v e);;
     if isMounted n
     then
       if is_used (valueUsed n)
       then modify_this (set_valueUsed ValueUnusedMarker);;
            get_cached v;; ret tt
       else ret tt
     else
       modify_this (set_valueUsed ValueUnusedMarker);;
       modify_this (set_childrenUsed None);;
       modify_this delete_selfUsed
   else ret tt);;
  let* n := gets fst in
  if is_none (valueSource n) && negb allowPromised
  then
    let* pr := gets (fun ns => _promised ns.2) in
    match pr with
    | Some (mkPromised _ _ _ (Some err) _) =>
        if truthy err then throw (Thrown err)
        else throw (StateInvalidUsageError (this_path n) GetStateWhenPromised)
    | _ => throw (StateInvalidUsageError (this_path n) GetStateWhenPromised)
    end
  else ret (valueSource n).

(** [get(allowPromised)] *)
Definition get (allowPromised : bool) : MN ValueUsed :=
  let* currentValue := getUntracked allowPromised in
  get_cached currentValue.

(** [SetStateAction<S>]: a value or a function of the previous value. *)
Inductive SetStateAction : Type :=
| SetValue (v : value)
| SetFunction (f : value -> value).

Section WithConfiguration.

Variable configuration : Configuration.

(** [setUntrackedV4(newValue, mergeValue)]; [None] stands for [null].  A
    plain value never carries [SelfMethodsID], so the check for a value
    taken from a state does not fire. *)
Definition setUntrackedV4 (newValue : SetStateAction) (mergeValue : value)
  : MN (option SetActionDescriptor) :=
  let* newValue :=
    match newValue with
    | SetValue v => ret v
    | SetFunction f => let* prev := getUntracked false in ret (f prev)
    end in
  let* unchanged :=
    if negb (is_object newValue)
    then let* current := getUntracked true in ret (strict_eq_primitive newValue current)
    else ret false in
  if unchanged then ret None
  else
    let* n := gets fst in
    let* ad := in_store (Store_set configuration (mkAd (this_path n) None) newValue mergeValue) in
    ret (Some ad).

(** [setUntracked(newValue, mergeValue)] *)
Definition setUntracked (newValue : SetStateAction) (mergeValue : value) : MN (list Path) :=
  let* r := setUntrackedV4 newValue mergeValue in
  match r with
  | Some r => ret [path r]
  | None => ret []
  end.

(** [set(newValue)] *)
Definition set (newValue : SetStateAction) : MN unit :=
  let* ad := setUntrackedV4 newValue VUndefined in
  match ad with
  | Some ad => in_store (Store_update ad)
  | None => ret tt
  end.

End WithConfiguration.

(** ** Merging *)

(** [Object.keys(v)] for a value. *)
Definition js_keys (v : value) : result (list string) :=
  match v with
  | VUndefined | VNull => Throw TypeError
  | VObject o => Ok (Object_keys o)
  | VArray l => Ok (map (fun i => pretty (Z.of_nat i)) (seq 0 (length l)))
  | VStr _ => Unmodelled
  | VBool _ | VNum _ | VNaN | none | VPromise _ => Ok []
  end.

(** [String(v)] for a primitive. *)
Definition String_of (v : value) : result string :=
  match v with
  | VUndefined => Ok "undefined"
  | VNull => Ok "null"
  | VBool true => Ok "true"
  | VBool false => Ok "false"
  | VNum n => Ok (pretty n)
  | VNaN => Ok "NaN"
  | VStr s => Ok s
  | none => Ok "Symbol(none)"
  | _ => Unmodelled
  end.

(** One turn of [sourceValue.forEach((e, i) => { ad.actions[currentValue.push(e) - 1] = "I" })]. *)
Definition merge_push (acc : list value * list (string * action)) (e : value)
  : list value * list (string * action) :=
  ((acc.1 ++ [e])%list, props_set (pretty (Z.of_nat (length acc.1))) I acc.2).

(** One turn of the loop over [Object.keys(sourceValue).sort()] when an
    array is merged with a keyed source; the accumulator holds
    [currentValue], [ad.actions] and [deletedIndexes]. *)
Definition merge_index (sourceValue : value)
  (acc : value * list (string * action) * list Z) (i : string)
  : result (value * list (string * action) * list Z) :=
  let '(currentValue, acts, deletedIndexes) := acc in
  do index <- Number_of_key i;
  do newPropValue <- js_get sourceValue (SNum index);
  if is_none newPropValue
  then Ok (currentValue, props_set (pretty index) D acts, (deletedIndexes ++ [index])%list)
  else
    do present <- js_in (SNum index) currentValue;
    do currentValue' <- js_set currentValue (SNum index) newPropValue;
    Ok (currentValue', props_set (pretty index) (if present then U else I) acts,
        deletedIndexes).

(** One turn of the loop over [Object.keys(sourceValue)] when an object is
    merged. *)
Definition merge_key (sourceValue : value)
  (acc : value * list (string * action)) (key : string)
  : result (value * list (string * action)) :=
  let '(currentValue, acts) := acc in
  do newPropValue <- js_get sourceValue (SStr key);
  if is_none newPropValue
  then do currentValue' <- js_delete currentValue (SStr key);
       Ok (currentValue', props_set key D acts)
  else
    do present <- js_in (SStr key) currentValue;
    do currentValue' <- js_set currentValue (SStr key) newPropValue;
    Ok (currentValue', props_set key (if present then U else I) acts).

Fixpoint result_fold {A B : Type} (f : B -> A -> result B) (l : list A) (acc : B)
  : result B :=
  match l with
  | [] => Ok acc
  | a :: l' => do acc' <- f acc a; result_fold f l' acc'
  end.

(** [deletedIndexes.reverse().forEach(p => currentValue.splice(p, 1))] *)
Definition splice_all (currentValue : value) (deletedIndexes : list Z) : result value :=
  match currentValue with
  | VArray l => Ok (VArray (foldl splice1 l (reverse deletedIndexes)))
  | _ => Unmodelled
  end.

(** The value [currentValue] is the object the store holds at the path of
    the node; after it has been mutated in place into [v], the store and
    the node see [v]. *)
Definition mutated_in_place (v : value) : MN unit :=
  let* n := gets fst in
  let* root := gets (fun ns : StateMethodsImpl * Store => _value ns.2) in
  let* root' := lift (put_at root (this_path n) v) in
  modify (fun ns : StateMethodsImpl * Store =>
            (set_valueSource v (valueEdition ns.1) ns.1, set_value root' ns.2)).

(** [SetPartialStateAction<S>] *)
Definition SetPartialStateAction : Type := SetStateAction.

Section WithConfiguration.

Variable configuration : Configuration.

(** The common end of the three structural branches of [mergeUntrackedV4]. *)
Definition merge_commit (currentValue sourceValue : value)
  (acts : list (string * action)) : MN (option SetActionDescriptor) :=
  let* n := gets fst in
  if (0 <? Z.of_nat (length (Object_keys acts)))
  then mutated_in_place currentValue;;
       setUntrackedV4 configuration (SetValue currentValue) sourceValue;;
       ret (Some (mkAd (this_path n) (Some acts)))
  else ret None.

(** [mergeUntrackedV4(sourceValue)] *)
Definition mergeUntrackedV4 (sourceValue : SetPartialStateAction)
  : MN (option SetActionDescriptor) :=
  let* currentValue := getUntracked false in
  let sourceValue :=
    match sourceValue with
    | SetValue v => v
    | SetFunction f => f currentValue
    end in
  match currentValue with
  | VArray l =>
      match sourceValue with
      | VArray src =>
          let r := foldl merge_push (l, []) src in
          merge_commit (VArray r.1) sourceValue r.2
      | _ =>
          let* keys := lift (js_keys sourceValue) in
          let* r := lift (result_fold (merge_index sourceValue) (sort_strings keys)
                            (currentValue, [], [])) in
          let* currentValue' := lift (splice_all r.1.1 r.2) in
          merge_commit currentValue' sourceValue r.1.2
      end
  | VObject _ | VPromise _ =>
      let* keys := lift (js_keys sourceValue) in
      let* r := lift (result_fold (merge_key sourceValue) keys (currentValue, [])) in
      merge_commit r.1 sourceValue r.2
  | VStr s =>
      let* s' := lift (String_of sourceValue) in
      setUntrackedV4 configuration (SetValue (VStr (s ++ s'))) sourceValue
  | _ => setUntrackedV4 configuration (SetValue sourceValue) VUndefined
  end.

(** [mergeUntracked(sourceValue)] *)
Definition mergeUntracked (sourceValue : SetPartialStateAction) : MN (list Path) :=
  let* r := mergeUntrackedV4 sourceValue in
  match r with
  | Some r => ret [path r]
  | None => ret []
  end.

(** [merge(sourceValue)] *)
Definition merge (sourceValue : SetPartialStateAction) : MN unit :=
  let* r := mergeUntrackedV4 sourceValue in
  match r with
  | Some r => in_store (Store_update r)
  | None => ret tt
  end.

(** [rerender(paths)] *)
Definition rerender (paths : list Path) : MN unit :=
  in_store (forEach paths (fun _ path => Store_update (mkAd path None)) tt).

(** [StateMethodsImpl.destroy()] *)
Definition destroy : MN unit := in_store Store_destroy.

End WithConfiguration.

(** ** Status getters of tracking nodes *)

(** [currentValue === none] for the result of [get]: a proxy is never
    [none]. *)
Definition used_is_none (u : ValueUsed) : bool :=
  match u with
  | Used _ v => is_none v
  | ValueUnusedMarker => false
  end.

(** [get promised()] *)
Definition get_promised : MN bool :=
  let* currentValue := get true in
  let* pr := gets (fun ns : StateMethodsImpl * Store => _promised ns.2) in
  match pr with
  | Some p => ret (used_is_none currentValue && negb (fullfilled p))
  | None => ret false
  end.

(** [get error()]; [None] stands for [undefined]. *)
Definition get_error : MN (option value) :=
  let* currentValue := get true in
  if used_is_none currentValue
  then
    let* pr := gets (fun ns : StateMethodsImpl * Store => _promised ns.2) in
    match pr with
    | Some (mkPromised _ _ true err _) => ret err
    | _ => get false;; ret None
    end
  else ret None.

(** [StateMethodsImpl.subscribe(l)] for a node that is not subscribed yet. *)
Definition subscribe (l : StateMethodsImpl) : MN unit :=
  modify_this (fun n => set_subscribers (Some (default [] (subscribers n) ++ [l])%list) n).

(** [StateMethodsImpl.unsubscribe(l)], the subscriber given by its position. *)
Definition unsubscribe (i : nat) : MN unit :=
  modify_this (fun n => match subscribers n with
                        | Some ss => set_subscribers (Some (delete i ss)) n
                        | None => n
                        end).

(** ** Sequences of operations on a store *)

(** What can happen to a store after its construction: writes, the
    settlement of a pending promise, notification, plugin registration and
    destruction. *)
Inductive Operation : Type :=
| OpSet (ad : SetActionDescriptor) (v mergeValue : value)
| OpUpdate (ad : SetActionDescriptor)
| OpThen (promised : nat) (r : value)
| OpCatch (promised : nat) (err : value)
| OpRegister (plugin : Plugin)
| OpDestroy.

(** The store after one operation, whatever its outcome. *)
Definition step (configuration : Configuration) (s : Store) (op : Operation) : Store :=
  match op with
  | OpSet ad v mergeValue => (Store_set configuration ad v mergeValue s).2
  | OpUpdate ad => (Store_update ad s).2
  | OpThen id r => (Promised_then configuration id r s).2
  | OpCatch id err => (Promised_catch id err s).2
  | OpRegister plugin => (Store_register plugin s).2
  | OpDestroy => (Store_destroy s).2
  end.

Definition steps (configuration : Configuration) (s : Store) (ops : list Operation) : Store :=
  foldl (step configuration) s ops.

(** [s'] differs from [s] at most in the subscribed nodes and the trace. *)
Definition same_data (s s' : Store) : Prop :=
  _edition s' = _edition s /\ _value s' = _value s /\ _promised s' = _promised s /\
  _setSubscribers s' = _setSubscribers s /\
  _destroySubscribers s' = _destroySubscribers s /\
  _plugins s' = _plugins s /\ next_promised s' = next_promised s.

(** The part of the store invariant that every operation keeps: while the
    root value is [none] a [Promised] object is held. *)
Definition pending_when_none (s : Store) : Prop :=
  _value s = none -> is_Some (_promised s).

(** The invariant as an equivalence. *)
Definition none_iff_pending (s : Store) : Prop :=
  _value s = none <-> is_Some (_promised s).

(** A [Promised] object that makes a plain root write throw: it wraps a
    source promise (no [resolver]) that has not settled. *)
Definition blocks_root_write (s : Store) : bool :=
  match _promised s with
  | Some p => negb (resolver p) && negb (fullfilled p)
  | None => false
  end.

(** What every reachable store satisfies: the edition is [DestroyedEdition]
    or a count of writes, and a [Promised] object is held while the root
    value is [none]. *)
Definition store_ok (s : Store) : Prop :=
  -1 <= _edition s /\ pending_when_none s.



(** Induction over tracking nodes: the property may be assumed of the
    cached children and of the subscribed nodes. *)
Fixpoint StateMethodsImpl_nested_ind (P : StateMethodsImpl -> Prop)
  (H : forall p vs ve cb dg cu su vu subs,
      match cu with
      | Some cs => Forall (fun kc : string * StateMethodsImpl => P kc.2) cs
      | None => True
      end ->
      match subs with
      | Some ss => Forall P ss
      | None => True
      end ->
      P (mkStateMethodsImpl p vs ve cb dg cu su vu subs))
  (n : StateMethodsImpl) {struct n} : P n :=
  match n with
  | mkStateMethodsImpl p vs ve cb dg cu su vu subs =>
      H p vs ve cb dg cu su vu subs
        (match cu with
         | Some cs =>
             (fix children (cs : list (string * StateMethodsImpl))
                : Forall (fun kc : string * StateMethodsImpl => P kc.2) cs :=
                match cs with
                | [] => @List.Forall_nil _ _
                | kc :: cs' =>
                    @List.Forall_cons _ _ kc cs'
                      (StateMethodsImpl_nested_ind P H kc.2) (children cs')
                end) cs
         | None => Logic.I
         end)
        (match subs with
         | Some ss =>
             (fix subscribed (ss : list StateMethodsImpl) : Forall P ss :=
                match ss with
                | [] => @List.Forall_nil _ _
                | s :: ss' =>
                    @List.Forall_cons _ _ s ss'
                      (StateMethodsImpl_nested_ind P H s) (subscribed ss')
                end) ss
         | None => Logic.I
         end)
  end.

(** [acts'] is [acts] with callbacks added: nothing is lost, and identities
    stay distinct when they were. *)
Definition extends (acts acts' : list Callback) : Prop :=
  (NoDup (map fn acts) -> NoDup (map fn acts')) /\
  (forall c, c ∈ acts -> c ∈ acts').

(** ** Properties *)

Ltac unfold_M :=
  unfold bind, ret, gets, modify, throw, lift, in_store, modify_this in *; simpl in *.

(** *** Reading while the root is absent *)

(** C10: while the root value is [none], [Store.get] returns [none] for
    every path, without indexing into anything and without throwing; the
    store is left as it is. *)
Theorem Store_get_none (s : Store) (path : Path) :
  _value s = none -> Store_get path s = (Ok none, s).
Proof.
  intros H. unfold Store_get. unfold_M. rewrite H. reflexivity.
Qed.

Lemma Store_get_none_witness :
  Store_get [SStr "a"; SNum 3] (Store_constructor default_configuration none)
  = (Ok none, Store_constructor default_configuration none).
Proof.
  apply (Store_get_none (Store_constructor default_configuration none)).
  reflexivity.
Defined.

(** *** Nested writes and the edition *)

Lemma Store_afterSet_live (params : PluginCallbacksOnSetArgument) (s : Store) :
  0 <= _edition s ->
  Store_afterSet params s
  = (Ok tt, emit (map (fun cb => PluginOnSet cb params) (_setSubscribers s))
              (set_edition (_edition s + 1) s)).
Proof.
  intros H. unfold Store_afterSet, DestroyedEdition. unfold_M.
  destruct (_edition s =? -1) eqn:E; [lia|]. reflexivity.
Qed.

(** C2, as the code has it: a nested write that [Store.set] accepts
    increases the edition by exactly one when it updates, deletes or
    inserts a property; when the key is absent and the new value is [none]
    the call returns its descriptor and leaves the store, and so the
    edition, untouched. *)
Theorem Store_set_nested_edition (configuration : Configuration) (s s' : Store)
  (ad ad' : SetActionDescriptor) (v mergeValue : value) :
  path ad <> [] ->
  Store_set configuration ad v mergeValue s = (Ok ad', s') ->
  exists p target present,
    last (path ad) = Some p /\
    walk (_value s) (removelast (path ad)) = Ok target /\
    js_in p target = Ok present /\
    if negb present && is_none v
    then s' = s /\ ad' = ad
    else _edition s' = _edition s + 1.
Proof.
  intros Hne H. unfold Store_set in H. unfold_M.
  destruct (_edition s <? 0) eqn:He; [discriminate|].
  apply Z.ltb_ge in He.
  destruct (last (path ad)) as [p|] eqn:Hl.
  2:{ apply last_None in Hl. contradiction. }
  unfold Store_set_nested in H. unfold_M.
  destruct (is_promise_like configuration v); [discriminate|].
  destruct (walk (_value s) (removelast (path ad))) as [target| |] eqn:Hw;
    try discriminate.
  destruct (js_in p target) as [present| |] eqn:Hin; try discriminate.
  exists p, target, present.
  do 3 (split; [first [assumption | reflexivity]|]).
  destruct present; simpl in *.
  - destruct (is_none v); simpl in *.
    + destruct (js_get target p); try discriminate.
      destruct (match target with
                | VArray l => match p with SNum n => Ok (VArray (splice1 l n))
                                         | SStr _ => js_delete target p end
                | _ => js_delete target p end) as [t'| |]; try discriminate.
      destruct (put_at (_value s) (removelast (path ad)) t') as [r'| |];
        try discriminate.
      rewrite Store_afterSet_live in H by (simpl; lia).
      inversion H; subst. reflexivity.
    + destruct (js_get target p); try discriminate.
      destruct (js_set target p v) as [t'| |]; try discriminate.
      destruct (put_at (_value s) (removelast (path ad)) t') as [r'| |];
        try discriminate.
      rewrite Store_afterSet_live in H by (simpl; lia).
      inversion H; subst. reflexivity.
  - destruct (is_none v); simpl in *.
    + inversion H; subst. split; reflexivity.
    + destruct (js_set target p v) as [t'| |]; try discriminate.
      destruct (put_at (_value s) (removelast (path ad)) t') as [r'| |];
        try discriminate.
      rewrite Store_afterSet_live in H by (simpl; lia).
      inversion H; subst. reflexivity.
Qed.

Lemma Store_set_nested_edition_witness :
  let s := Store_constructor default_configuration (VObject [("a", VNum 1)]) in
  let r := Store_set default_configuration (mkAd [SStr "a"] None) (VNum 5) VUndefined s in
  exists p target present,
    last [SStr "a"] = Some p /\
    walk (_value s) (removelast [SStr "a"]) = Ok target /\
    js_in p target = Ok present /\
    if negb present && is_none (VNum 5)
    then r.2 = s /\ mkAd [SStr "a"] None = mkAd [SStr "a"] None
    else _edition r.2 = _edition s + 1.
Proof.
  intros s r.
  apply (Store_set_nested_edition default_configuration s r.2
           (mkAd [SStr "a"] None) (mkAd [SStr "a"] None) (VNum 5) VUndefined).
  - discriminate.
  - reflexivity.
Defined.

(** C2, as the claim is worded, fails: deleting a key that is absent is
    accepted by [Store.set] and leaves the edition where it was. *)
Lemma Store_set_nested_noop_keeps_edition :
  ~ (forall (configuration : Configuration) (s s' : Store)
       (ad ad' : SetActionDescriptor) (v mergeValue : value),
        path ad <> [] ->
        Store_set configuration ad v mergeValue s = (Ok ad', s') ->
        _edition s' = _edition s + 1).
Proof.
  intros H.
  specialize (H default_configuration
                (Store_constructor default_configuration (VObject [("a", VNum 1)]))
                (Store_constructor default_configuration (VObject [("a", VNum 1)]))
                (mkAd [SStr "b"] None) (mkAd [SStr "b"] None) none VUndefined).
  simpl in H. specialize (H ltac:(discriminate) eq_refl). discriminate.
Qed.

(** *** Read after write *)

Lemma props_get_set_eq {A : Type} (k : string) (v : A) (o : list (string * A)) :
  props_get k (props_set k v o) = Some v.
Proof.
  induction o as [|[k' v'] o IH]; simpl.
  - rewrite String.eqb_refl. reflexivity.
  - destruct (String.eqb k' k) eqn:E; simpl.
    + rewrite String.eqb_refl. reflexivity.
    + rewrite E. exact IH.
Qed.

Lemma array_index_nonneg (k : string) (i : Z) : array_index k = Some i -> 0 <= i.
Proof.
  unfold array_index. destruct (canonical_integer k) as [n|]; [|discriminate].
  destruct (0 <=? n) eqn:E; simpl; [|discriminate].
  destruct (n <? 2 ^ 32 - 1); [|discriminate].
  intros [= <-]. lia.
Qed.

Lemma js_get_js_set (t t' : value) (p : PathSegment) (v : value) :
  js_set t p v = Ok t' -> js_get t' p = Ok v.
Proof.
  destruct t; simpl; try discriminate.
  - destruct (array_index (to_key p)) as [i|] eqn:Hi; [|discriminate].
    pose proof (array_index_nonneg _ _ Hi) as Hnn.
    destruct (i <? Z.of_nat (length l)) eqn:Hlt.
    + intros [= <-]. simpl. rewrite Hi, length_insert, Hlt.
      apply Z.ltb_lt in Hlt.
      rewrite list_lookup_insert_eq by lia. reflexivity.
    + destruct (Z.eqb_spec i (Z.of_nat (length l))) as [Heq|]; [|discriminate].
      intros [= <-]. simpl. rewrite Hi, length_app. simpl.
      destruct (Z.ltb_spec i (Z.of_nat (length l + 1))); [|lia].
      rewrite list_lookup_middle by lia. reflexivity.
  - assert (js_get (VObject (props_set (to_key p) v o)) p = Ok v) as Hg.
    { simpl. rewrite props_get_set_eq. reflexivity. }
    destruct (props_has (to_key p) o); [intros [= <-]; exact Hg|].
    destruct (on_Object_prototype (to_key p)); [discriminate|].
    intros [= <-]; exact Hg.
Qed.

Lemma js_set_not_none (t t' : value) (p : PathSegment) (v : value) :
  js_set t p v = Ok t' -> is_none t' = false.
Proof.
  destruct t; simpl; try discriminate.
  - destruct (array_index (to_key p)) as [i|]; [|discriminate].
    destruct (i <? Z.of_nat (length l)); [intros [= <-]; reflexivity|].
    destruct (i =? Z.of_nat (length l)); [intros [= <-]; reflexivity|discriminate].
  - destruct (props_has (to_key p) o); [intros [= <-]; reflexivity|].
    destruct (on_Object_prototype (to_key p)); [discriminate|].
    intros [= <-]; reflexivity.
Qed.

Lemma walk_put_at (root root' : value) (path : Path) (t : value) :
  put_at root path t = Ok root' -> walk root' path = Ok t.
Proof.
  revert root root'. induction path as [|p path IH]; intros root root'; simpl.
  - intros [= <-]. reflexivity.
  - destruct (js_get root p) as [c| |]; simpl; try discriminate.
    destruct (put_at c path t) as [c'| |] eqn:Hp; simpl; try discriminate.
    intros Hs. rewrite (js_get_js_set _ _ _ _ Hs). simpl. eapply IH. exact Hp.
Qed.

Lemma put_at_not_none (root root' : value) (path : Path) (t : value) :
  put_at root path t = Ok root' -> is_none t = false -> is_none root' = false.
Proof.
  destruct path as [|p path]; simpl.
  - intros [= <-]. trivial.
  - destruct (js_get root p) as [c| |]; simpl; try discriminate.
    destruct (put_at c path t) as [c'| |]; simpl; try discriminate.
    intros Hs _. eapply js_set_not_none. exact Hs.
Qed.

Lemma walk_app (root : value) (path : Path) (p : PathSegment) :
  walk root (path ++ [p])%list = result_bind (walk root path) (fun t => js_get t p).
Proof.
  revert root. induction path as [|q path IH]; intros root; simpl.
  - destruct (js_get root p); reflexivity.
  - destruct (js_get root q) as [c| |]; simpl; try reflexivity. apply IH.
Qed.

Lemma removelast_last_Some {A : Type} (l : list A) (x : A) :
  last l = Some x -> l = (removelast l ++ [x])%list.
Proof.
  induction l as [|a l IH]; [discriminate|].
  destruct l as [|b l]; simpl in *.
  - intros [= <-]. reflexivity.
  - intros H. f_equal. apply IH. exact H.
Qed.

Lemma Store_set_nested_written (configuration : Configuration) (s s' : Store)
  (ad ad' : SetActionDescriptor) (parent : Path) (p : PathSegment)
  (v mergeValue : value) :
  0 <= _edition s ->
  is_none v = false ->
  Store_set_nested configuration ad parent p v mergeValue s = (Ok ad', s') ->
  exists target target',
    walk (_value s) parent = Ok target /\
    js_set target p v = Ok target' /\
    put_at (_value s) parent target' = Ok (_value s') /\
    _edition s' = _edition s + 1 /\
    _promised s' = _promised s /\
    _subscribers s' = _subscribers s.
Proof.
  intros He Hv H. unfold Store_set_nested in H. unfold_M.
  destruct (is_promise_like configuration v); [discriminate|].
  destruct (walk (_value s) parent) as [target| |] eqn:Hw; try discriminate.
  destruct (js_in p target) as [present| |] eqn:Hin; try discriminate.
  rewrite Hv in H. simpl in H.
  destruct present.
  - destruct (js_get target p); try discriminate.
    destruct (js_set target p v) as [t'| |] eqn:Hs; try discriminate.
    destruct (put_at (_value s) parent t') as [r'| |] eqn:Hp; try discriminate.
    rewrite Store_afterSet_live in H by (simpl; lia).
    inversion H; subst. exists target, t'. simpl.
    repeat split; first [assumption | reflexivity].
  - destruct (js_set target p v) as [t'| |] eqn:Hs; try discriminate.
    destruct (put_at (_value s) parent t') as [r'| |] eqn:Hp; try discriminate.
    rewrite Store_afterSet_live in H by (simpl; lia).
    inversion H; subst. exists target, t'. simpl.
    repeat split; first [assumption | reflexivity].
Qed.

Lemma Store_set_root_written (configuration : Configuration) (s s' : Store)
  (ad ad' : SetActionDescriptor) (v mergeValue : value) :
  0 <= _edition s ->
  is_none v = false ->
  is_promise_like configuration v = false ->
  Store_set_root configuration ad v mergeValue s = (Ok ad', s') ->
  ad' = ad /\ _value s' = v /\ _edition s' = _edition s + 1 /\
  _promised s' = _promised s /\ _subscribers s' = _subscribers s.
Proof.
  intros He Hv Hp H. unfold Store_set_root in H. unfold_M.
  rewrite Hv, Hp in H.
  destruct (_promised s) as [pr|] eqn:Hpr.
  - destruct (negb (resolver pr) && negb (fullfilled pr)); [discriminate|].
    simpl in H. rewrite Store_afterSet_live in H by (simpl; lia).
    simpl in H. rewrite Hpr in H.
    destruct (is_none (_value s) && negb (is_none v) && resolver pr);
      inversion H; subst; simpl; auto.
  - simpl in H. rewrite Store_afterSet_live in H by (simpl; lia).
    simpl in H. rewrite Hpr in H. inversion H; subst; simpl; auto.
Qed.




(** *** What notification leaves alone *)

Lemma same_data_refl (s : Store) : same_data s s.
Proof. repeat split. Qed.

Lemma same_data_trans (s1 s2 s3 : Store) :
  same_data s1 s2 -> same_data s2 s3 -> same_data s1 s3.
Proof.
  unfold same_data. intros (?&?&?&?&?&?&?) (?&?&?&?&?&?&?).
  repeat split; congruence.
Qed.

Lemma forEach_same_data {A B : Type} (f : B -> A -> M B) (l : list A) :
  (forall acc a s r s', f acc a s = (r, s') -> same_data s s') ->
  forall acc s r s', forEach l f acc s = (r, s') -> same_data s s'.
Proof.
  intros Hf. induction l as [|a l IH]; intros acc s r s' H; simpl in H.
  - inversion H; subst. apply same_data_refl.
  - unfold bind in H. destruct (f acc a s) as [[acc'| |] s1] eqn:E.
    + eapply same_data_trans; [eapply Hf; exact E|eapply IH; exact H].
    + inversion H; subst. eapply Hf; exact E.
    + inversion H; subst. eapply Hf; exact E.
Qed.

Lemma notify_same_data (ad : SetActionDescriptor) (acts : list Callback) (i : nat)
  (s s' : Store) (r : result (list Callback)) :
  notify ad acts i s = (r, s') -> same_data s s'.
Proof.
  unfold notify. unfold_M. destruct (_subscribers s !! i) as [n|].
  - destruct (onSet n ad acts) as [x| |]; intros H; inversion H; subst;
      repeat split.
  - intros H; inversion H; subst. apply same_data_refl.
Qed.

Lemma notify_all_same_data (ad : SetActionDescriptor) (acts : list Callback)
  (s s' : Store) (r : result (list Callback)) :
  notify_all ad acts s = (r, s') -> same_data s s'.
Proof.
  unfold notify_all. unfold_M. apply forEach_same_data.
  intros. eapply notify_same_data; eauto.
Qed.

Lemma Store_update_same_data (ad : SetActionDescriptor) (s s' : Store) (r : result unit) :
  Store_update ad s = (r, s') -> same_data s s'.
Proof.
  unfold Store_update. unfold bind at 1.
  set (m := match actions ad with
            | Some a => if all_U a then _ else _
            | None => _ end).
  assert (forall r1 s1, m s = (r1, s1) -> same_data s s1) as Hm.
  { subst m. intros r1 s1. destruct (actions ad) as [a|].
    - destruct (all_U a).
      + apply forEach_same_data. intros. eapply notify_all_same_data; eauto.
      + apply notify_all_same_data.
    - apply notify_all_same_data. }
  destruct (m s) as [[acts| |] s1] eqn:E; intros H.
  - unfold_M. inversion H; subst.
    destruct (Hm _ _ eq_refl) as (?&?&?&?&?&?&?). repeat split; assumption.
  - inversion H; subst. eapply Hm; reflexivity.
  - inversion H; subst. eapply Hm; reflexivity.
Qed.

(** *** Root writes while a promise is pending *)

Lemma Store_set_root_outcome (configuration : Configuration) (s : Store)
  (ad : SetActionDescriptor) (v mergeValue : value) :
  0 <= _edition s ->
  (is_none v = false /\ is_promise_like configuration v = false /\
   blocks_root_write s = true /\
   Store_set_root configuration ad v mergeValue s
   = (Throw (StateInvalidUsageError (path ad) SetStateWhenPromised), s))
  \/
  (exists s',
      Store_set_root configuration ad v mergeValue s = (Ok ad, s') /\
      pending_when_none s' /\ _edition s' = _edition s + 1 /\
      _value s' = (if is_promise_like configuration v then none else v) /\
      (is_none v || is_promise_like configuration v = false ->
       blocks_root_write s = false)).
Proof.
  intros He. unfold Store_set_root, blocks_root_write, pending_when_none. unfold_M.
  destruct (is_none v) eqn:Hv.
  - right. rewrite Store_afterSet_live by (simpl; lia). simpl.
    destruct (is_none (_value s) && negb (is_none v) && true) eqn:E.
    + destruct v; try discriminate. rewrite andb_false_r in E. discriminate.
    + eexists. split; [reflexivity|]. simpl. repeat split; eauto.
      * destruct (is_promise_like configuration v), v; try discriminate; reflexivity.
      * discriminate.
  - destruct (is_promise_like configuration v) eqn:Hp.
    + right. rewrite Store_afterSet_live by (simpl; lia). simpl.
      rewrite andb_false_r. simpl.
      eexists. split; [reflexivity|]. simpl. repeat split; eauto. discriminate.
    + destruct (_promised s) as [pr|] eqn:Hpr.
      * destruct (negb (resolver pr) && negb (fullfilled pr)) eqn:Hb.
        -- left. auto.
        -- right. simpl. rewrite Store_afterSet_live by (simpl; lia). simpl.
           rewrite Hpr.
           destruct (is_none (_value s) && negb (is_none v) && resolver pr);
             (eexists; split; [reflexivity|]); simpl; repeat split; eauto.
      * right. simpl. rewrite Store_afterSet_live by (simpl; lia). simpl.
        rewrite Hpr. eexists; split; [reflexivity|]. simpl. repeat split.
        intros Hn. rewrite Hn in Hv. discriminate.
Qed.

(** C4, as the code has it: on a store that is not destroyed, a root write
    of a value that is neither [none] nor promise-like throws
    [SetStateWhenPromised], leaving the store as it was, exactly when the
    store holds a [Promised] object without a resolver (one that wraps a
    source promise) that is not fulfilled; in every other case the write
    succeeds and the root value is the written value. *)
Theorem Store_set_root_while_promised (configuration : Configuration) (s : Store)
  (ad : SetActionDescriptor) (v mergeValue : value) :
  0 <= _edition s ->
  path ad = [] ->
  is_none v = false ->
  is_promise_like configuration v = false ->
  if blocks_root_write s
  then Store_set configuration ad v mergeValue s
       = (Throw (StateInvalidUsageError [] SetStateWhenPromised), s)
  else exists s', Store_set configuration ad v mergeValue s = (Ok ad, s') /\
                  _value s' = v.
Proof.
  intros He Hpath Hv Hp. unfold Store_set. unfold_M.
  destruct (Z.ltb_spec (_edition s) 0); [lia|].
  rewrite Hpath. simpl.
  destruct (Store_set_root_outcome configuration s ad v mergeValue He)
    as [(_ & _ & Hb & Hr)|(s' & Hr & _ & _ & Hval & Hb)].
  - rewrite Hb, Hr, Hpath. reflexivity.
  - rewrite Hb by (rewrite Hv, Hp; reflexivity).
    exists s'. split; [exact Hr|]. rewrite Hval, Hp. reflexivity.
Qed.

Lemma Store_set_root_while_promised_witness :
  Store_set default_configuration (mkAd [] None) (VNum 5) VUndefined
    (Store_constructor default_configuration (VPromise 1))
  = (Throw (StateInvalidUsageError [] SetStateWhenPromised),
     Store_constructor default_configuration (VPromise 1)).
Proof.
  apply (Store_set_root_while_promised default_configuration
           (Store_constructor default_configuration (VPromise 1))
           (mkAd [] None) (VNum 5) VUndefined); [simpl; lia|reflexivity..].
Defined.

(** C4, as the claim is worded, fails: a store constructed from [none]
    holds a [Promised] object that has no source promise and is not
    fulfilled, yet a plain root write succeeds. *)
Lemma Store_set_root_no_source_succeeds :
  ~ (forall (configuration : Configuration) (s : Store)
       (ad : SetActionDescriptor) (v mergeValue : value),
        0 <= _edition s -> path ad = [] ->
        is_none v = false -> is_promise_like configuration v = false ->
        ((exists s', Store_set configuration ad v mergeValue s
                     = (Throw (StateInvalidUsageError [] SetStateWhenPromised), s'))
         <-> (exists p, _promised s = Some p /\ promise p = None /\
                        fullfilled p = false))).
Proof.
  intros H.
  destruct (H default_configuration (Store_constructor default_configuration none)
              (mkAd [] None) (VNum 5) VUndefined) as [_ H2];
    [simpl; lia|reflexivity..|].
  destruct H2 as [s' Hs'].
  - eexists. simpl. repeat split.
  - discriminate Hs'.
Qed.

(** *** The store invariant *)

Lemma same_data_store_ok (s s' : Store) : same_data s s' -> store_ok s -> store_ok s'.
Proof.
  unfold same_data, store_ok, pending_when_none.
  intros (He & Hv & Hp & _) [H1 H2]. rewrite He, Hv, Hp. auto.
Qed.

Lemma Store_set_nested_outcome (configuration : Configuration) (s : Store)
  (ad : SetActionDescriptor) (parent : Path) (p : PathSegment) (v mergeValue : value) :
  0 <= _edition s ->
  (Store_set_nested configuration ad parent p v mergeValue s).2 = s \/
  (is_none (_value (Store_set_nested configuration ad parent p v mergeValue s).2) = false /\
   _edition (Store_set_nested configuration ad parent p v mergeValue s).2 = _edition s + 1).
Proof.
  intros He. unfold Store_set_nested. unfold_M.
  destruct (is_promise_like configuration v); [left; reflexivity|].
  destruct (walk (_value s) parent) as [target| |]; try (left; reflexivity).
  destruct (js_in p target) as [present| |]; try (left; reflexivity).
  assert (forall t' r' arg ad',
             put_at (_value s) parent t' = Ok r' -> is_none t' = false ->
             is_none (_value (match Store_afterSet arg (set_value r' s) with
                              | (Ok _, s') => (Ok ad', s')
                              | (Throw e, s') => (Throw e, s')
                              | (Unmodelled, s') => (@Unmodelled SetActionDescriptor, s')
                              end).2) = false /\
             _edition (match Store_afterSet arg (set_value r' s) with
                       | (Ok _, s') => (Ok ad', s')
                       | (Throw e, s') => (Throw e, s')
                       | (Unmodelled, s') => (@Unmodelled SetActionDescriptor, s')
                       end).2 = _edition s + 1) as Hdone.
  { intros t' r' arg ad' Hput Ht. rewrite Store_afterSet_live by (simpl; lia).
    simpl. split; [|reflexivity]. eapply put_at_not_none; eauto. }
  destruct present; destruct (is_none v); simpl.
  - destruct (js_get target p); try (left; reflexivity).
    destruct target; simpl; try (left; reflexivity).
    + destruct p as [n|k]; simpl; try (left; reflexivity).
      destruct (put_at (_value s) parent (VArray (splice1 l n))) eqn:Hput;
        try (left; reflexivity).
      right. eapply Hdone; eauto.
    + destruct (put_at (_value s) parent (VObject (props_delete (to_key p) o)))
        eqn:Hput; try (left; reflexivity).
      right. eapply Hdone; eauto.
  - destruct (js_get target p); try (left; reflexivity).
    destruct (js_set target p v) as [t'| |] eqn:Hs; try (left; reflexivity).
    destruct (put_at (_value s) parent t') eqn:Hput; try (left; reflexivity).
    right. eapply Hdone; eauto using js_set_not_none.
  - left; reflexivity.
  - destruct (js_set target p v) as [t'| |] eqn:Hs; try (left; reflexivity).
    destruct (put_at (_value s) parent t') eqn:Hput; try (left; reflexivity).
    right. eapply Hdone; eauto using js_set_not_none.
Qed.

Lemma Store_set_store_ok (configuration : Configuration) (s : Store)
  (ad : SetActionDescriptor) (v mergeValue : value) :
  store_ok s -> store_ok (Store_set configuration ad v mergeValue s).2.
Proof.
  intros [He Hinv]. unfold Store_set. unfold_M.
  destruct (Z.ltb_spec (_edition s) 0); [split; assumption|].
  destruct (last (path ad)) as [p|].
  - destruct (Store_set_nested_outcome configuration s ad (removelast (path ad))
                p v mergeValue ltac:(assumption)) as [->|[Hn Hed]].
    + split; assumption.
    + split; [lia|]. intros Hnone. rewrite Hnone in Hn. discriminate.
  - destruct (Store_set_root_outcome configuration s ad v mergeValue ltac:(assumption))
      as [(_ & _ & _ & ->)|(s' & -> & Hp & Hed & _)].
    + split; assumption.
    + split; [simpl; lia|exact Hp].
Qed.

Lemma Store_update_store_ok (ad : SetActionDescriptor) (s : Store) :
  store_ok s -> store_ok (Store_update ad s).2.
Proof.
  intros H. destruct (Store_update ad s) as [r s'] eqn:E.
  eapply same_data_store_ok; [eapply Store_update_same_data; exact E|exact H].
Qed.

Lemma onResolve_store_ok (configuration : Configuration) (id : nat) (r : value) (s : Store) :
  store_ok s -> store_ok (onResolve configuration id r s).2.
Proof.
  intros [He Hinv]. unfold onResolve. unfold_M.
  destruct (_promised s) as [p|] eqn:Hp; [|split; assumption].
  destruct (Nat.eqb (promised_id p) id && negb (_edition s =? DestroyedEdition)) eqn:G;
    [|split; assumption].
  apply andb_true_iff in G as [_ G]. apply negb_true_iff in G.
  unfold DestroyedEdition in G. apply Z.eqb_neq in G.
  unfold Store_set. unfold_M.
  destruct (Z.ltb_spec (_edition s) 0); [lia|]. simpl.
  destruct (Store_set_root_outcome configuration (set_promised None s)
              (mkAd RootPath None) r VUndefined ltac:(simpl; lia))
    as [(_ & _ & Hb & _)|(s' & -> & Hpend & Hed & _)].
  - discriminate Hb.
  - apply Store_update_store_ok. split; [simpl in Hed; lia|exact Hpend].
Qed.

Lemma Promised_then_store_ok (configuration : Configuration) (id : nat) (r : value)
  (s : Store) :
  store_ok s -> store_ok (Promised_then configuration id r s).2.
Proof.
  intros H. unfold Promised_then. unfold_M.
  destruct (_promised s) as [p|] eqn:Hp; [|exact H].
  destruct (Nat.eqb (promised_id p) id); [|exact H].
  set (s1 := set_promised _ s).
  assert (store_ok s1) as H1.
  { destruct H as [He _]. split; [exact He|]. intros _. subst s1. simpl. eauto. }
  destruct (resolver p); [exact H1|].
  unfold catch_all.
  pose proof (onResolve_store_ok configuration id r s1 H1) as H2.
  destruct (onResolve configuration id r s1) as [[[]| |] s2]; exact H2.
Qed.

Lemma Promised_catch_store_ok (id : nat) (err : value) (s : Store) :
  store_ok s -> store_ok (Promised_catch id err s).2.
Proof.
  intros H. unfold Promised_catch. unfold_M.
  destruct (_promised s) as [p|] eqn:Hp; [|exact H].
  destruct (Nat.eqb (promised_id p) id) eqn:Hid; [|exact H].
  unfold onReject. unfold_M. rewrite Hid. simpl.
  destruct (negb (_edition s =? DestroyedEdition)).
  - apply Store_update_store_ok. destruct H as [He _].
    split; [simpl; lia|]. intros _. simpl. eauto.
  - destruct H as [He _]. split; [exact He|]. intros _. simpl. eauto.
Qed.

Lemma Store_register_store_ok (plugin : Plugin) (s : Store) :
  store_ok s -> store_ok (Store_register plugin s).2.
Proof.
  intros H. unfold Store_register. unfold_M.
  destruct (Store_getPlugin (plugin_id plugin) s); exact H.
Qed.

Lemma Store_destroy_store_ok (s : Store) :
  store_ok s -> store_ok (Store_destroy s).2.
Proof.
  intros [_ H]. unfold Store_destroy. unfold_M.
  split; [simpl; unfold DestroyedEdition; lia|exact H].
Qed.

Lemma Store_constructor_store_ok (configuration : Configuration) (v : value) :
  store_ok (Store_constructor configuration v).
Proof.
  unfold Store_constructor, store_ok, pending_when_none.
  destruct (is_promise_like configuration v) eqn:Hp; simpl.
  - split; [lia|eauto].
  - destruct (is_none v) eqn:Hn; simpl.
    + split; [lia|eauto].
    + split; [lia|]. intros ->. discriminate.
Qed.

Lemma step_store_ok (configuration : Configuration) (s : Store) (op : Operation) :
  store_ok s -> store_ok (step configuration s op).
Proof.
  destruct op; simpl.
  - apply Store_set_store_ok.
  - apply Store_update_store_ok.
  - apply Promised_then_store_ok.
  - apply Promised_catch_store_ok.
  - apply Store_register_store_ok.
  - apply Store_destroy_store_ok.
Qed.

Lemma steps_store_ok (configuration : Configuration) (ops : list Operation) (s : Store) :
  store_ok s -> store_ok (steps configuration s ops).
Proof.
  revert s. induction ops as [|op ops IH]; intros s H; simpl; [exact H|].
  apply IH, step_store_ok, H.
Qed.

(** C3, as the code has it: every store reached from its construction by
    root writes, nested writes, notifications, promise settlements, plugin
    registrations and destruction holds a [Promised] object while its root
    value is [none]. *)
Theorem store_pending_when_none (configuration : Configuration) (v : value)
  (ops : list Operation) :
  pending_when_none (steps configuration (Store_constructor configuration v) ops).
Proof.
  apply steps_store_ok, Store_constructor_store_ok.
Qed.

(** C3, as the claim is worded, fails: the equivalence holds at
    construction, but a plain root write on a store constructed from
    [none] sets the root value and keeps the [Promised] object. *)
Lemma store_none_iff_pending_broken :
  ~ (forall (configuration : Configuration) (v : value) (ops : list Operation),
        none_iff_pending (steps configuration (Store_constructor configuration v) ops)).
Proof.
  intros H.
  destruct (H default_configuration none [OpSet (mkAd [] None) (VNum 5) VUndefined])
    as [_ H2].
  simpl in H2. discriminate H2. eauto.
Qed.

(** *** Destruction *)

Lemma step_destroyed (configuration : Configuration) (s : Store) (op : Operation) :
  _edition s = DestroyedEdition -> _edition (step configuration s op) = DestroyedEdition.
Proof.
  intros He. destruct op; simpl.
  - unfold Store_set. unfold_M. rewrite He. simpl. exact He.
  - destruct (Store_update ad s) as [r s'] eqn:E.
    destruct (Store_update_same_data _ _ _ _ E) as [Hed _].
    simpl. rewrite Hed. exact He.
  - unfold Promised_then. unfold_M.
    destruct (_promised s) as [p|]; [|exact He].
    destruct (Nat.eqb (promised_id p) promised) eqn:Hid; [|exact He].
    destruct (resolver p); [exact He|].
    unfold catch_all, onResolve. unfold_M. rewrite He, Hid. simpl. exact He.
  - unfold Promised_catch. unfold_M.
    destruct (_promised s) as [p|]; [|exact He].
    destruct (Nat.eqb (promised_id p) promised) eqn:Hid; [|exact He].
    unfold onReject. unfold_M. rewrite He, Hid. simpl. exact He.
  - unfold Store_register. unfold_M.
    destruct (Store_getPlugin (plugin_id plugin) s); exact He.
  - reflexivity.
Qed.

Lemma steps_destroyed (configuration : Configuration) (ops : list Operation) (s : Store) :
  _edition s = DestroyedEdition -> _edition (steps configuration s ops) = DestroyedEdition.
Proof.
  revert s. induction ops as [|op ops IH]; intros s H; simpl; [exact H|].
  apply IH, step_destroyed, H.
Qed.

(** C9: [destroy] calls each registered destroy callback once, in the order
    of registration, with the last root value, or with no value when the
    root is [none]; and whatever operations follow, every later
    [Store.set] throws [SetStateWhenDestroyed] and leaves the store as it
    is. *)
Theorem Store_destroy_terminal (configuration : Configuration) (s : Store)
  (ops : list Operation) (ad : SetActionDescriptor) (v mergeValue : value) :
  Store_destroy s = (Ok tt, (Store_destroy s).2) /\
  trace (Store_destroy s).2
  = (trace s ++
     map (fun cb => PluginOnDestroy cb
                      (if is_none (_value s) then None else Some (_value s)))
       (_destroySubscribers s))%list /\
  Store_set configuration ad v mergeValue (steps configuration (Store_destroy s).2 ops)
  = (Throw (StateInvalidUsageError (path ad) SetStateWhenDestroyed),
     steps configuration (Store_destroy s).2 ops).
Proof.
  split; [reflexivity|]. split; [reflexivity|].
  unfold Store_set. unfold_M.
  rewrite (steps_destroyed configuration ops); reflexivity.
Qed.

(** *** Reads of a tracking node *)

Lemma Store_get_store (path : Path) (s : Store) : (Store_get path s).2 = s.
Proof.
  unfold Store_get. unfold_M. destruct (is_none (_value s)); reflexivity.
Qed.

Lemma get_cached_store (v : value) (n : StateMethodsImpl) (s : Store) :
  (get_cached v (n, s)).2.2 = s.
Proof.
  unfold get_cached. unfold_M.
  destruct (valueUsed n); [|reflexivity].
  destruct (downgraded n); [reflexivity|].
  destruct (Array_isArray v); [reflexivity|].
  destruct (is_object v); [|reflexivity].
  destruct v; try reflexivity.
  destruct (props_has "constructor" o); reflexivity.
Qed.

Lemma getUntracked_store (allowPromised : bool) (n : StateMethodsImpl) (s : Store) :
  (getUntracked allowPromised (n, s)).2.2 = s.
Proof.
  unfold getUntracked. unfold bind at 1. unfold gets at 1.
  unfold bind at 1. unfold gets at 1. cbn [fst snd].
  unfold bind at 1.
  set (refresh := if negb (valueEdition n =? _edition s) then _ else _).
  assert ((refresh (n, s)).2.2 = s) as Hr.
  { subst refresh. destruct (negb (valueEdition n =? _edition s)); [|reflexivity].
    unfold bind at 1. unfold in_store. cbn [fst snd].
    pose proof (Store_get_store (this_path n) s) as Hg.
    destruct (Store_get (this_path n) s) as [[v| |] s1]; simpl in Hg; subst s1;
      cbn [fst snd]; try reflexivity.
    unfold_M. destruct (isMounted n); [|reflexivity].
    destruct (is_used (valueUsed n)); [|reflexivity].
    pose proof (get_cached_store v
                  (set_valueUsed ValueUnusedMarker (set_valueSource v (_edition s) n)) s)
      as Hc.
    destruct (get_cached v _) as [[u| |] [n2 s2]]; simpl in Hc; subst s2; reflexivity. }
  destruct (refresh (n, s)) as [[[]| |] [n1 s1]]; simpl in Hr; subst s1;
    try reflexivity.
  unfold_M.
  destruct (is_none (valueSource n1) && negb allowPromised); [|reflexivity].
  repeat match goal with
         | |- context [match ?x with _ => _ end] => destruct x
         end; reflexivity.
Qed.

Lemma strict_eq_primitive_refl (v : value) :
  is_object v = false -> v <> VNaN -> strict_eq_primitive v v = true.
Proof.
  destruct v; simpl; try discriminate; intros _ Hnan; try reflexivity.
  - apply Bool.eqb_reflx.
  - apply Z.eqb_refl.
  - contradiction.
  - apply String.eqb_refl.
Qed.

(** C8, as the code has it: when a tracking node is set to a primitive
    value that is strictly equal to the value it currently reads, that is
    to its current value unless that value is [NaN], [set] returns without
    calling [Store.set] or [Store.update]: the store, and with it the
    edition and the trace of notifications and callbacks, is unchanged. *)
Theorem set_unchanged_primitive (configuration : Configuration)
  (n n' : StateMethodsImpl) (s s' : Store) (v : value) :
  is_object v = false -> v <> VNaN ->
  getUntracked true (n, s) = (Ok v, (n', s')) ->
  set configuration (SetValue v) (n, s) = (Ok tt, (n', s)) /\ s' = s.
Proof.
  intros Hv Hnan Hg.
  pose proof (getUntracked_store true n s) as Hs. rewrite Hg in Hs. simpl in Hs.
  subst s'. split; [|reflexivity].
  unfold set, setUntrackedV4. unfold bind at 1. unfold bind at 1.
  unfold ret at 1. unfold bind at 1. rewrite Hv. cbn [negb].
  unfold bind at 1. rewrite Hg. unfold ret at 1.
  rewrite (strict_eq_primitive_refl v Hv Hnan). reflexivity.
Qed.

Lemma set_unchanged_primitive_witness :
  let s := Store_constructor default_configuration (VObject [("a", VNum 1)]) in
  let n := mkStateMethodsImpl [SStr "a"] (VNum 1) 0 OnSetUsedNoAction false None false
             ValueUnusedMarker None in
  set default_configuration (SetValue (VNum 1)) (n, s) = (Ok tt, (n, s)) /\ s = s.
Proof.
  intros s n.
  apply (set_unchanged_primitive default_configuration n n s s (VNum 1)).
  - reflexivity.
  - discriminate.
  - reflexivity.
Defined.

(** C8, as the claim is worded, fails: [NaN] is a primitive that is not
    strictly equal to itself, so setting a leaf that holds [NaN] to [NaN]
    goes through [Store.set]; the edition grows and the subscribers are
    notified. *)
Lemma set_NaN_on_NaN_writes :
  ~ (forall (configuration : Configuration) (n n' : StateMethodsImpl) (s s' : Store)
       (v : value),
        is_object v = false ->
        getUntracked true (n, s) = (Ok v, (n', s')) ->
        set configuration (SetValue v) (n, s) = (Ok tt, (n', s)) /\ s' = s).
Proof.
  intros H.
  pose (s := Store_constructor default_configuration (VObject [("a", VNaN)])).
  pose (n := mkStateMethodsImpl [SStr "a"] VNaN 0 OnSetUsedNoAction false None false
               ValueUnusedMarker None).
  destruct (H default_configuration n n s s VNaN eq_refl eq_refl) as [Hset _].
  apply (f_equal (fun r => _edition r.2.2)) in Hset.
  vm_compute in Hset. discriminate Hset.
Qed.

(** *** Cache invalidation after array deletions *)

(** C5 does not hold of the code.  The indexes of the action map are sorted
    by [sort()] without a comparator, that is by their string forms, so
    with deletions at 2 and 10 the index found first is 10.  A node over an
    array of twelve elements that has handed out the child 5 keeps that
    child cached, although 5 is not below the smallest deleted index; the
    same happens when the descriptor comes from [merge] and reaches the
    node through [Store.update]. *)
Example onSet_array_delete_keeps_child :
  let arr := VArray (map VNum [0; 1; 2; 3; 4; 5; 6; 7; 8; 9; 10; 11]) in
  let cb := mkCallback 1 false in
  let child := mkStateMethodsImpl [SNum 5] (VNum 5) 0 cb false None false
                 (Used false (VNum 5)) None in
  let node := mkStateMethodsImpl [] arr 0 cb false (Some [("5", child)]) true
                (Used true arr) None in
  let handle := mkStateMethodsImpl [] arr 0 OnSetUsedNoAction false None false
                  ValueUnusedMarker None in
  let s := snd (Store_subscribe node (Store_constructor default_configuration arr)) in
  firstDeletedIndex [("2", D); ("10", D)] = Ok (Some 10) /\
  (exists node',
      onSet node (mkAd [] (Some [("2", D); ("10", D)])) [] = Ok (true, node', [cb]) /\
      childrenUsed node' = Some [("5", child)]) /\
  (exists handle' s',
      merge default_configuration (SetValue (VObject [("2", none); ("10", none)]))
        (handle, s) = (Ok tt, (handle', s')) /\
      _value s' = VArray (map VNum [0; 1; 3; 4; 5; 6; 7; 8; 9; 10]) /\
      (childrenUsed <$> _subscribers s') = [Some [("5", child)]]).
Proof.
  cbv zeta. split; [reflexivity|]. split.
  - eexists. split; reflexivity.
  - eexists _, _. split; [vm_compute; reflexivity|]. split; reflexivity.
Qed.

(** *** Writing where an object already is *)

Lemma Store_set_read_back (configuration : Configuration) (s s' : Store)
  (ad ad' : SetActionDescriptor) (v mergeValue : value) :
  0 <= _edition s ->
  is_none v = false ->
  is_promise_like configuration v = false ->
  Store_set configuration ad v mergeValue s = (Ok ad', s') ->
  walk (_value s') (path ad) = Ok v /\ is_none (_value s') = false /\
  _edition s' = _edition s + 1.
Proof.
  intros He Hv Hp H. unfold Store_set in H. unfold_M.
  destruct (Z.ltb_spec (_edition s) 0); [lia|].
  destruct (last (path ad)) as [p|] eqn:Hl.
  - destruct (Store_set_nested_written _ _ _ _ _ _ _ _ _ He Hv H)
      as (target & target' & Hw & Hs & Hput & Hed & _).
    split; [|split; [|exact Hed]].
    + rewrite (removelast_last_Some _ _ Hl), walk_app.
      rewrite (walk_put_at _ _ _ _ Hput). simpl.
      exact (js_get_js_set _ _ _ _ Hs).
    + exact (put_at_not_none _ _ _ _ Hput (js_set_not_none _ _ _ _ Hs)).
  - apply last_None in Hl.
    destruct (Store_set_root_written _ _ _ _ _ _ _ He Hv Hp H)
      as (_ & Hval & Hed & _).
    rewrite Hval, Hl. auto.
Qed.


Lemma js_get_Ok_is_object (t c : value) (p : PathSegment) :
  js_get t p = Ok c -> is_object t = true.
Proof. destruct t; simpl; try discriminate; reflexivity. Qed.

Lemma js_get_object_present (t c : value) (p : PathSegment) :
  js_get t p = Ok c -> is_object c = true ->
  js_in p t = Ok true /\ forall v, exists t', js_set t p v = Ok t'.
Proof.
  destruct t; simpl; try discriminate.
  - destruct (array_index (to_key p)) as [i|]; simpl.
    + destruct (i <? Z.of_nat (length l)) eqn:Hlt.
      * intros _ _. split; [reflexivity|]. intros v. eauto.
      * intros [= <-]. discriminate.
    + destruct (String.eqb (to_key p) "length"); [|discriminate].
      intros [= <-]. discriminate.
  - unfold props_has. destruct (props_get (to_key p) o) as [x|].
    + intros _ _. split; [reflexivity|]. intros v. eauto.
    + destruct (on_Object_prototype (to_key p)); [discriminate|].
      intros [= <-]. discriminate.
Qed.

Lemma walk_Ok_is_object (root t : value) (path : Path) :
  walk root path = Ok t -> is_object t = true -> is_object root = true.
Proof.
  destruct path as [|p path]; simpl.
  - intros [= <-]. trivial.
  - destruct (js_get root p) as [c| |] eqn:Hg; simpl; try discriminate.
    intros _ _. eapply js_get_Ok_is_object; eauto.
Qed.

Lemma put_at_exists (root t t' : value) (path : Path) :
  walk root path = Ok t -> is_object t = true ->
  exists root', put_at root path t' = Ok root'.
Proof.
  revert root. induction path as [|p path IH]; intros root; simpl.
  - eauto.
  - destruct (js_get root p) as [c| |] eqn:Hg; simpl; try discriminate.
    intros Hw Ht. destruct (IH c Hw Ht) as [c' Hc']. rewrite Hc'. simpl.
    pose proof (walk_Ok_is_object _ _ _ Hw Ht) as Hc.
    destruct (js_get_object_present _ _ _ Hg Hc) as [_ Hset]. apply Hset.
Qed.

Lemma walk_Ok_not_none (root t : value) (path : Path) :
  walk root path = Ok t -> is_object t = true -> is_none root = false.
Proof.
  intros Hw Ht. pose proof (walk_Ok_is_object _ _ _ Hw Ht) as H.
  destruct root; try discriminate; reflexivity.
Qed.

Lemma Store_get_object (path : Path) (s : Store) (t : value) :
  Store_get path s = (Ok t, s) -> is_object t = true -> walk (_value s) path = Ok t.
Proof.
  unfold Store_get. unfold_M. destruct (is_none (_value s)) eqn:Hn.
  - intros [= <-]. destruct (_value s); discriminate.
  - intros H _. destruct (walk (_value s) path); inversion H; reflexivity.
Qed.

Lemma Store_set_existing (configuration : Configuration) (s : Store)
  (ad : SetActionDescriptor) (t v mergeValue : value) :
  0 <= _edition s ->
  walk (_value s) (path ad) = Ok t -> is_object t = true ->
  is_none v = false -> is_promise_like configuration v = false ->
  (path ad = [] -> blocks_root_write s = false) ->
  exists s', Store_set configuration ad v mergeValue s = (Ok ad, s') /\
             Store_get (path ad) s' = (Ok v, s') /\
             _edition s' = _edition s + 1 /\
             _subscribers s' = _subscribers s.
Proof.
  intros He Hw Ht Hv Hp Hb.
  assert (exists s', Store_set configuration ad v mergeValue s = (Ok ad, s') /\
                     _subscribers s' = _subscribers s) as (s' & Hs' & Hsub).
  { unfold Store_set. unfold_M.
    destruct (Z.ltb_spec (_edition s) 0); [lia|].
    destruct (last (path ad)) as [p|] eqn:Hl.
    - rewrite (removelast_last_Some _ _ Hl), walk_app in Hw.
      destruct (walk (_value s) (removelast (path ad))) as [target| |] eqn:Hwp;
        simpl in Hw; try discriminate.
      destruct (js_get_object_present _ _ _ Hw Ht) as [Hin Hset].
      destruct (Hset v) as [target' Hset'].
      destruct (put_at_exists (_value s) target target' (removelast (path ad)) Hwp
                  (js_get_Ok_is_object _ _ _ Hw)) as [root' Hput].
      unfold Store_set_nested. unfold_M.
      rewrite Hp, Hwp, Hin, Hv, Hw, Hset', Hput. simpl.
      rewrite Store_afterSet_live by (simpl; lia). eexists. split; reflexivity.
    - apply last_None in Hl.
      destruct (Store_set_root_outcome configuration s ad v mergeValue He)
        as [(_ & _ & Hb' & _)|(s' & Hr & _)].
      + rewrite (Hb Hl) in Hb'. discriminate.
      + exists s'. split; [exact Hr|].
        destruct (Store_set_root_written _ _ _ _ _ _ _ He Hv Hp Hr)
          as (_ & _ & _ & _ & Hsub). exact Hsub. }
  exists s'. split; [exact Hs'|].
  destruct (Store_set_read_back _ _ _ _ _ _ _ He Hv Hp Hs') as (Hg & Hn & Hed).
  split; [|auto]. unfold Store_get. unfold_M. rewrite Hn, Hg. reflexivity.
Qed.

Lemma get_cached_Ok (v : value) (n : StateMethodsImpl) (s : Store) :
  (forall o, v = VObject o -> props_has "constructor" o = false) ->
  exists u n',
    get_cached v (n, s) = (Ok u, (n', s)) /\
    this_path n' = this_path n /\ valueSource n' = valueSource n /\
    valueEdition n' = valueEdition n.
Proof.
  intros Hc. unfold get_cached. unfold_M.
  destruct (valueUsed n) eqn:Hu.
  - destruct (downgraded n); [eexists _, _; split; [reflexivity|auto]|].
    destruct (Array_isArray v); [eexists _, _; split; [reflexivity|auto]|].
    destruct (is_object v); [|eexists _, _; split; [reflexivity|auto]].
    destruct v; try (eexists _, _; split; [reflexivity|auto]).
    rewrite (Hc o eq_refl). eexists _, _; split; [reflexivity|auto].
  - eexists _, _; split; [reflexivity|auto].
Qed.

Lemma getUntracked_synced (allowPromised : bool) (n : StateMethodsImpl) (s : Store)
  (v : value) :
  Store_get (this_path n) s = (Ok v, s) ->
  (valueEdition n = _edition s -> valueSource n = v) ->
  is_none v = false ->
  (forall o, v = VObject o -> props_has "constructor" o = false) ->
  exists n',
    getUntracked allowPromised (n, s) = (Ok v, (n', s)) /\
    this_path n' = this_path n /\ valueSource n' = v /\
    valueEdition n' = _edition s.
Proof.
  intros Hg Hsync Hv Hc. unfold getUntracked.
  unfold bind at 1. unfold gets at 1. unfold bind at 1. unfold gets at 1.
  cbn [fst snd]. unfold bind at 1.
  destruct (Z.eqb_spec (valueEdition n) (_edition s)) as [He|He]; cbn [negb].
  - unfold ret at 1. unfold_M. rewrite (Hsync He), Hv. simpl.
    exists n. rewrite (Hsync He). auto.
  - unfold bind at 1. unfold in_store. cbn [fst snd]. rewrite Hg. cbn [fst snd].
    unfold bind at 1. unfold modify_this, modify at 1. cbn [fst snd].
    destruct (isMounted n).
    + destruct (is_used (valueUsed n)).
      * unfold bind at 1. unfold modify at 1. cbn [fst snd].
        unfold bind at 1.
        destruct (get_cached_Ok v
                    (set_valueUsed ValueUnusedMarker (set_valueSource v (_edition s) n))
                    s Hc) as (u & n2 & Hgc & Hp2 & Hs2 & He2).
        rewrite Hgc. unfold ret at 1. unfold_M. rewrite Hs2. simpl. rewrite Hv. simpl.
        exists n2. rewrite Hp2, Hs2, He2. simpl. auto.
      * unfold_M. rewrite Hv. simpl. eexists. split; [reflexivity|]. simpl. auto.
    + unfold_M. rewrite Hv. simpl. eexists. split; [reflexivity|]. simpl. auto.
Qed.

(** *** Merging into an object *)



(** *** Collected callbacks *)

Lemma extends_refl (acts : list Callback) : extends acts acts.
Proof. split; auto. Qed.

Lemma extends_trans (a b c : list Callback) : extends a b -> extends b c -> extends a c.
Proof. intros [H1 H2] [H3 H4]. split; auto. Qed.

Lemma Set_has_false (c : Callback) (s : list Callback) :
  Set_has c s = false -> fn c ∉ map fn s.
Proof.
  unfold Set_has. induction s as [|c' s IH]; simpl.
  - intros _. apply not_elem_of_nil.
  - intros H. apply orb_false_iff in H as [H1 H2].
    apply not_elem_of_cons. split; [|apply IH, H2].
    apply Nat.eqb_neq in H1. congruence.
Qed.

Lemma Set_add_extends (c : Callback) (acts : list Callback) :
  extends acts (Set_add c acts).
Proof.
  unfold Set_add. destruct (Set_has c acts) eqn:E; [apply extends_refl|].
  split.
  - intros Hnd. rewrite map_app. apply NoDup_app. split; [exact Hnd|].
    split; [|apply NoDup_singleton].
    intros x Hx Hx'. apply list_elem_of_singleton in Hx'. subst x.
    exact (Set_has_false _ _ E Hx).
  - intros x Hx. apply elem_of_app. left. exact Hx.
Qed.

Lemma child_onSet_extends {N : Type} (f : N -> result (bool * N * list Callback))
  (key : string) (acts : list Callback) (cs : list (string * N)) :
  Forall (fun kc => forall r, f kc.2 = Ok r -> extends acts r.2) cs ->
  forall r, child_onSet f key cs = Ok (Some r) -> extends acts r.2.
Proof.
  induction 1 as [|[k c] cs Hc _ IH]; intros r; simpl.
  - destruct (on_Object_prototype key); discriminate.
  - destruct (String.eqb k key).
    + destruct (f c) as [rc| |] eqn:E; simpl; try discriminate.
      intros [= <-]. simpl. apply Hc. exact E.
    + destruct (child_onSet f key cs) as [[r'|]| |]; simpl; try discriminate.
      intros [= <-]. simpl. apply IH. reflexivity.
Qed.

Lemma subscribers_onSet_extends {N : Type}
  (f : N -> list Callback -> result (bool * N * list Callback)) (ss : list N) :
  Forall (fun s => forall acts r, f s acts = Ok r -> extends acts r.2) ss ->
  forall acts r, subscribers_onSet f ss acts = Ok r -> extends acts r.2.
Proof.
  induction 1 as [|s ss Hs _ IH]; intros acts r; simpl.
  - intros [= <-]. apply extends_refl.
  - destruct (f s acts) as [r1| |] eqn:E; simpl; try discriminate.
    destruct (subscribers_onSet f ss r1.2) as [rs| |] eqn:E'; simpl; try discriminate.
    intros [= <-]. simpl.
    eapply extends_trans; [eapply Hs; exact E|eapply IH; exact E'].
Qed.

Lemma onSet_extends (n : StateMethodsImpl) :
  forall ad acts r, onSet n ad acts = Ok r -> extends acts r.2.
Proof.
  induction n as [p vs ve cb dg cu su vu subs IHc IHs]
    using StateMethodsImpl_nested_ind.
  intros ad acts r. simpl.
  set (acts0 := if dg && is_used vu then Set_add cb acts else acts).
  assert (extends acts acts0) as H0.
  { subst acts0. destruct (dg && is_used vu);
      [apply Set_add_extends|apply extends_refl]. }
  match goal with
  | |- result_bind ?m _ = _ -> _ =>
      assert (forall x, m = Ok x -> extends acts x.2) as Hm
  end.
  { intros x. destruct (path ad !! length p) as [nextChildKey|].
    - destruct cu as [cs|].
      + destruct (child_onSet (fun c => onSet c ad acts0) (to_key nextChildKey) cs)
          as [[[[b cs'] acts1]|]| |] eqn:E; simpl; try discriminate.
        * assert (extends acts0 acts1) as H1.
          { change acts1 with (b, cs', acts1).2.
            eapply child_onSet_extends; [|exact E].
            eapply Forall_impl; [exact IHc|]. intros kc Hkc r0. apply Hkc. }
          destruct b; intros [= <-]; simpl; eapply extends_trans; eauto.
        * intros [= <-]. exact H0.
      + intros [= <-]. exact H0.
    - destruct (is_used vu).
      + destruct (invalidate_children vs (actions ad) cu); simpl; try discriminate.
        intros [= <-]. simpl.
        eapply extends_trans; [exact H0|apply Set_add_extends].
      + intros [= <-]. exact H0. }
  match goal with
  | |- result_bind ?m _ = _ -> _ => destruct m as [[[[updated cu1] su1] acts1]| |]
  end; simpl; try discriminate.
  specialize (Hm _ eq_refl). simpl in Hm.
  destruct updated.
  - intros [= <-]. exact Hm.
  - destruct subs as [ss|].
    + destruct (subscribers_onSet (fun s acts => onSet s ad acts) ss acts1)
        as [[[any ss'] acts2]| |] eqn:E; simpl; try discriminate.
      intros [= <-]. simpl. eapply extends_trans; [exact Hm|].
      change acts2 with (any, ss', acts2).2.
      eapply subscribers_onSet_extends; [|exact E].
      eapply Forall_impl; [exact IHs|]. intros s Hs a r0. apply Hs.
    + intros [= <-]. exact Hm.
Qed.

(** *** Fan-out of notifications *)







(** ** Further properties of the store *)

(** A promise-like value cannot be written below the root: on a store that
    is not destroyed the write throws [SetStateNestedToPromised] and the
    store stays as it was. *)
Theorem Store_set_nested_promise_throws (configuration : Configuration) (s : Store)
  (ad : SetActionDescriptor) (v mergeValue : value) :
  0 <= _edition s -> path ad <> [] -> is_promise_like configuration v = true ->
  Store_set configuration ad v mergeValue s
  = (Throw (StateInvalidUsageError (path ad) SetStateNestedToPromised), s).
Proof.
  intros He Hne Hp. unfold Store_set. unfold_M.
  destruct (Z.ltb_spec (_edition s) 0); [lia|].
  destruct (last (path ad)) eqn:Hl; [|apply last_None in Hl; contradiction].
  unfold Store_set_nested. rewrite Hp. reflexivity.
Qed.

Lemma Store_set_nested_promise_throws_witness :
  Store_set default_configuration (mkAd [SStr "a"] None) (VPromise 7) VUndefined
    (Store_constructor default_configuration (VObject []))
  = (Throw (StateInvalidUsageError [SStr "a"] SetStateNestedToPromised),
     Store_constructor default_configuration (VObject [])).
Proof.
  apply (Store_set_nested_promise_throws default_configuration
           (Store_constructor default_configuration (VObject []))
           (mkAd [SStr "a"] None) (VPromise 7) VUndefined).
  - simpl; lia.
  - discriminate.
  - reflexivity.
Defined.

(** The descriptor a nested write returns tells what happened: the input
    descriptor for an update and for the no-op, and otherwise the parent
    path with the last segment tagged as deleted or inserted. *)
Theorem Store_set_nested_descriptor (configuration : Configuration) (s s' : Store)
  (ad ad' : SetActionDescriptor) (p : PathSegment) (target : value) (present : bool)
  (v mergeValue : value) :
  last (path ad) = Some p ->
  walk (_value s) (removelast (path ad)) = Ok target ->
  js_in p target = Ok present ->
  Store_set configuration ad v mergeValue s = (Ok ad', s') ->
  ad' = match present, is_none v with
        | true, false => ad
        | true, true => mkAd (removelast (path ad)) (Some [(to_key p, D)])
        | false, false => mkAd (removelast (path ad)) (Some [(to_key p, I)])
        | false, true => ad
        end.
Proof.
  intros Hl Hw Hin H. unfold Store_set in H. unfold_M.
  destruct (_edition s <? 0); [discriminate|].
  rewrite Hl in H. unfold Store_set_nested in H. unfold_M.
  destruct (is_promise_like configuration v); [discriminate|].
  rewrite Hw, Hin in H.
  destruct present, (is_none v); simpl in H;
    repeat match type of H with
           | context [match ?x with _ => _ end] =>
               destruct x; simpl in H; try discriminate
           end; inversion H; reflexivity.
Qed.

Lemma Store_set_nested_descriptor_witness :
  mkAd [] (Some [("b", I)])
  = match false, is_none (VNum 2) with
    | true, false => mkAd [SStr "b"] None
    | true, true => mkAd (removelast [SStr "b"]) (Some [(to_key (SStr "b"), D)])
    | false, false => mkAd (removelast [SStr "b"]) (Some [(to_key (SStr "b"), I)])
    | false, true => mkAd [SStr "b"] None
    end.
Proof.
  apply (Store_set_nested_descriptor default_configuration
           (Store_constructor default_configuration (VObject [("a", VNum 1)]))
           (Store_set default_configuration (mkAd [SStr "b"] None) (VNum 2) VUndefined
              (Store_constructor default_configuration (VObject [("a", VNum 1)]))).2
           (mkAd [SStr "b"] None) (mkAd [] (Some [("b", I)])) (SStr "b")
           (VObject [("a", VNum 1)]) false (VNum 2) VUndefined);
    reflexivity.
Defined.

(** ** Numeric path segments as property keys *)

Lemma digit_value_pretty_N_char (d : N) :
  (d < 10)%N -> digit_value (pretty_N_char d) = Some (Z.of_N d).
Proof.
  intros H.
  assert (d = 0 \/ d = 1 \/ d = 2 \/ d = 3 \/ d = 4 \/ d = 5 \/ d = 6 \/ d = 7 \/
          d = 8 \/ d = 9)%N as Hd by lia.
  repeat (destruct Hd as [->|Hd]; [reflexivity|]). subst d. reflexivity.
Qed.

Lemma digits_value_pretty_N_go (x : N) :
  forall s, digits_value 0 (pretty_N_go x s) = digits_value (Z.of_N x) s.
Proof.
  induction (N.lt_wf_0 x) as [x _ IH]. intros s.
  destruct (N.eq_dec x 0%N) as [->|Hx]; [reflexivity|].
  rewrite pretty_N_go_step by lia.
  rewrite IH by (apply N.div_lt; lia).
  simpl. rewrite digit_value_pretty_N_char by (apply N.mod_lt; lia).
  f_equal. pose proof (N.div_mod x 10 ltac:(lia)) as Hdm.
  apply (f_equal Z.of_N) in Hdm. rewrite N2Z.inj_add, N2Z.inj_mul in Hdm.
  simpl Z.of_N in Hdm at 2. lia.
Qed.

Lemma canonical_integer_no_dash (c : ascii) (k : string) :
  c <> "-"%char ->
  canonical_integer (String c k)
  = match digits_value 0 (String c k) with
    | Some n => if String.eqb (pretty n) (String c k) then Some n else None
    | None => None
    end.
Proof.
  intros Hc. destruct c as [[] [] [] [] [] [] [] []];
    first [reflexivity | exfalso; apply Hc; reflexivity].
Qed.

Lemma pretty_N_go_nonempty (x : N) :
  x <> 0%N -> exists c k, pretty_N_go x "" = String c k /\ c <> "-"%char.
Proof.
  intros Hx. destruct (pretty_N_go x "") as [|c k] eqn:E.
  - pose proof (digits_value_pretty_N_go x "") as H. rewrite E in H. simpl in H.
    inversion H. lia.
  - exists c, k. split; [reflexivity|]. intros ->.
    apply (pretty_N_go_ne_dash x "" k); [discriminate|exact E].
Qed.

(** A number used as a property key and read back by [Number] is the same
    number: [Number(String(n)) === n]. *)
Lemma canonical_integer_pretty (n : Z) : canonical_integer (pretty n) = Some n.
Proof.
  destruct n as [|p|p].
  - reflexivity.
  - change (pretty (Z.pos p)) with (pretty_N_go (N.pos p) "").
    destruct (pretty_N_go_nonempty (N.pos p)) as (c & k & E & Hc); [discriminate|].
    rewrite E, canonical_integer_no_dash by exact Hc. rewrite <- E.
    rewrite digits_value_pretty_N_go. simpl.
    change (pretty_N_go (N.pos p) "") with (pretty (Z.pos p)).
    rewrite String.eqb_refl. reflexivity.
  - change (pretty (Z.neg p)) with (String "-"%char (pretty_N_go (N.pos p) "")).
    unfold canonical_integer. rewrite digits_value_pretty_N_go. simpl.
    change (String "-"%char (pretty_N_go (N.pos p) "")) with (pretty (Z.neg p)).
    rewrite String.eqb_refl. reflexivity.
Qed.

Lemma array_index_pretty (i : Z) :
  0 <= i < 2 ^ 32 - 1 -> array_index (pretty i) = Some i.
Proof.
  intros H. unfold array_index. rewrite canonical_integer_pretty.
  destruct (Z.leb_spec 0 i); [|lia]. destruct (Z.ltb_spec i (2 ^ 32 - 1)); [|lia].
  reflexivity.
Qed.

Lemma props_get_delete {A : Type} (k : string) (o : list (string * A)) :
  props_get k (props_delete k o) = None.
Proof.
  induction o as [|[k' v] o IH]; simpl; [reflexivity|].
  destruct (String.eqb k' k) eqn:E; [exact IH|]. simpl. rewrite E. exact IH.
Qed.

(** ** Deleting through [Store.set] *)

(** Writing [none] to an element of an array through a numeric path
    segment removes the element with [splice]: the array gets shorter by
    one, the later elements move down, the edition grows by one, and the
    descriptor names the parent path with the index tagged as deleted. *)
Theorem Store_set_delete_element (configuration : Configuration) (s : Store)
  (ad : SetActionDescriptor) (mergeValue : value) (i : Z) (l : list value) :
  0 <= _edition s ->
  last (path ad) = Some (SNum i) ->
  walk (_value s) (removelast (path ad)) = Ok (VArray l) ->
  0 <= i < Z.of_nat (length l) -> i < 2 ^ 32 - 1 ->
  exists s',
    Store_set configuration ad none mergeValue s
    = (Ok (mkAd (removelast (path ad)) (Some [(pretty i, D)])), s') /\
    walk (_value s') (removelast (path ad)) = Ok (VArray (delete (Z.to_nat i) l)) /\
    _edition s' = _edition s + 1.
Proof.
  intros He Hl Hw Hi Hi'.
  destruct (put_at_exists (_value s) (VArray l) (VArray (delete (Z.to_nat i) l))
              (removelast (path ad)) Hw eq_refl) as [root' Hput].
  unfold Store_set. unfold_M.
  destruct (Z.ltb_spec (_edition s) 0); [lia|].
  rewrite Hl. unfold Store_set_nested. unfold_M.
  unfold is_promise_like. simpl. rewrite Hw. simpl.
  rewrite array_index_pretty by lia.
  destruct (Z.ltb_spec i (Z.of_nat (length l))); [|lia]. simpl.
  unfold splice1. destruct (Z.ltb_spec i 0); [lia|].
  rewrite Z.min_l by lia. rewrite Hput.
  rewrite Store_afterSet_live by (simpl; lia).
  eexists. split; [reflexivity|]. simpl. split; [|reflexivity].
  eapply walk_put_at. exact Hput.
Qed.

Lemma Store_set_delete_element_witness :
  let s := Store_constructor default_configuration
             (VObject [("xs", VArray [VNum 10; VNum 20; VNum 30])]) in
  exists s',
    Store_set default_configuration (mkAd [SStr "xs"; SNum 1] None) none VUndefined s
    = (Ok (mkAd (removelast [SStr "xs"; SNum 1]) (Some [(pretty 1, D)])), s') /\
    walk (_value s') (removelast [SStr "xs"; SNum 1])
    = Ok (VArray (delete (Z.to_nat 1) [VNum 10; VNum 20; VNum 30])) /\
    _edition s' = _edition s + 1.
Proof.
  intros s.
  apply (Store_set_delete_element default_configuration s
           (mkAd [SStr "xs"; SNum 1] None) VUndefined 1 [VNum 10; VNum 20; VNum 30]).
  - simpl; lia.
  - reflexivity.
  - reflexivity.
  - simpl; lia.
  - lia.
Defined.

(** Writing [none] to a property an object owns deletes the property: the
    object no longer has the key, the edition grows by one, and the
    descriptor names the parent path with the key tagged as deleted. *)
Theorem Store_set_delete_property (configuration : Configuration) (s : Store)
  (ad : SetActionDescriptor) (mergeValue : value) (p : PathSegment)
  (o : list (string * value)) :
  0 <= _edition s ->
  last (path ad) = Some p ->
  walk (_value s) (removelast (path ad)) = Ok (VObject o) ->
  props_has (to_key p) o = true ->
  exists s',
    Store_set configuration ad none mergeValue s
    = (Ok (mkAd (removelast (path ad)) (Some [(to_key p, D)])), s') /\
    walk (_value s') (removelast (path ad)) = Ok (VObject (props_delete (to_key p) o)) /\
    props_has (to_key p) (props_delete (to_key p) o) = false /\
    _edition s' = _edition s + 1.
Proof.
  intros He Hl Hw Hh.
  destruct (put_at_exists (_value s) (VObject o) (VObject (props_delete (to_key p) o))
              (removelast (path ad)) Hw eq_refl) as [root' Hput].
  unfold Store_set. unfold_M.
  destruct (Z.ltb_spec (_edition s) 0); [lia|].
  rewrite Hl. unfold Store_set_nested. unfold_M.
  unfold is_promise_like. simpl. rewrite Hw. simpl. rewrite Hh. simpl.
  unfold props_has in Hh. destruct (props_get (to_key p) o) as [x|]; [|discriminate].
  simpl. rewrite Hput. rewrite Store_afterSet_live by (simpl; lia).
  eexists. split; [reflexivity|]. simpl.
  split; [eapply walk_put_at; exact Hput|].
  split; [|reflexivity]. unfold props_has. rewrite props_get_delete. reflexivity.
Qed.

Lemma Store_set_delete_property_witness :
  let s := Store_constructor default_configuration
             (VObject [("a", VNum 1); ("b", VNum 2)]) in
  exists s',
    Store_set default_configuration (mkAd [SStr "a"] None) none VUndefined s
    = (Ok (mkAd (removelast [SStr "a"]) (Some [(to_key (SStr "a"), D)])), s') /\
    walk (_value s') (removelast [SStr "a"])
    = Ok (VObject (props_delete (to_key (SStr "a")) [("a", VNum 1); ("b", VNum 2)])) /\
    props_has (to_key (SStr "a"))
      (props_delete (to_key (SStr "a")) [("a", VNum 1); ("b", VNum 2)]) = false /\
    _edition s' = _edition s + 1.
Proof.
  intros s.
  apply (Store_set_delete_property default_configuration s
           (mkAd [SStr "a"] None) VUndefined (SStr "a") [("a", VNum 1); ("b", VNum 2)]).
  - simpl; lia.
  - reflexivity.
  - reflexivity.
  - reflexivity.
Defined.

(** ** Notification leaves the data alone *)

(** Whatever its outcome, [Store.update] changes neither the edition nor the
    root value, the pending promise, the plugin callbacks or the registered
    plugins: it only touches the subscribed nodes and calls callbacks. *)
Theorem Store_update_keeps_data (ad : SetActionDescriptor) (s : Store) :
  same_data s (Store_update ad s).2 /\
  Store_get [] (Store_update ad s).2
  = (fst (Store_get [] s), (Store_update ad s).2).
Proof.
  destruct (Store_update ad s) as [r s'] eqn:E.
  pose proof (Store_update_same_data _ _ _ _ E) as H.
  split; [exact H|]. destruct H as (_ & Hv & _).
  unfold Store_get. unfold_M. rewrite Hv.
  destruct (is_none (_value s)); reflexivity.
Qed.

(** ** Tracking nodes under [onSet] *)

(** [onSet] only adds to the set of callbacks: what was collected stays
    collected, and callbacks with distinct identities stay distinct. *)
Theorem onSet_only_adds_callbacks (n n' : StateMethodsImpl) (ad : SetActionDescriptor)
  (acts acts' : list Callback) (updated : bool) :
  onSet n ad acts = Ok (updated, n', acts') ->
  (forall c, c ∈ acts -> c ∈ acts') /\
  (NoDup (map fn acts) -> NoDup (map fn acts')).
Proof.
  intros H. destruct (onSet_extends n ad acts _ H) as [H1 H2]. split; assumption.
Qed.

Lemma onSet_only_adds_callbacks_witness :
  let cb := mkCallback 1 false in
  let n := mkStateMethodsImpl [] (VNum 1) 0 cb false None true (Used false (VNum 1)) None in
  (forall c, c ∈ [mkCallback 2 false] -> c ∈ [mkCallback 2 false; cb]) /\
  (NoDup (map fn [mkCallback 2 false]) -> NoDup (map fn [mkCallback 2 false; cb])).
Proof.
  intros cb n.
  apply (onSet_only_adds_callbacks n (delete_selfUsed n) (mkAd [] None)
           [mkCallback 2 false] [mkCallback 2 false; cb] true).
  reflexivity.
Defined.

(** A node that nobody reads is never rerendered: when its value cache is
    unused and it has neither cached children nor subscribers, [onSet]
    returns [false] and leaves the node and the callbacks as they are, for
    every descriptor. *)
Theorem onSet_unused_node (n : StateMethodsImpl) (ad : SetActionDescriptor)
  (acts : list Callback) :
  valueUsed n = ValueUnusedMarker -> childrenUsed n = None -> subscribers n = None ->
  onSet n ad acts = Ok (false, n, acts).
Proof.
  destruct n as [p vs ve cb dg cu su vu subs]. simpl. intros -> -> ->.
  rewrite andb_false_r. simpl.
  destruct (path ad !! length p); reflexivity.
Qed.

Lemma onSet_unused_node_witness :
  let n := mkStateMethodsImpl [SStr "a"] (VNum 1) 0 (mkCallback 1 false) true None true
             ValueUnusedMarker None in
  onSet n (mkAd [SStr "a"] None) [] = Ok (false, n, []).
Proof.
  intros n. apply (onSet_unused_node n (mkAd [SStr "a"] None) []); reflexivity.
Defined.

(** A write at the path of a node or above it, without an action map,
    reaches a node whose value is in use: [onSet] returns [true], collects
    the rerender callback of the node, and drops the cached self proxy and
    all cached children. *)
Theorem onSet_own_path (n : StateMethodsImpl) (ad : SetActionDescriptor)
  (acts : list Callback) :
  (length (path ad) <= length (this_path n))%nat ->
  is_used (valueUsed n) = true -> actions ad = None ->
  onSet n ad acts
  = Ok (true, set_childrenUsed None (delete_selfUsed n), Set_add (onSetUsed n) acts).
Proof.
  destruct n as [p vs ve cb dg cu su vu subs]. simpl. intros Hlen Hu Ha.
  rewrite Hu, Ha.
  destruct (path ad !! length p) as [x|] eqn:Hlk;
    [apply lookup_lt_Some in Hlk; lia|].
  assert (invalidate_children vs None cu = Ok None) as -> by (destruct cu; reflexivity).
  simpl. rewrite andb_true_r.
  destruct dg; simpl; [|reflexivity].
  unfold Set_add at 1.
  assert (Set_has cb (Set_add cb acts) = true) as ->; [|reflexivity].
  unfold Set_add. destruct (Set_has cb acts) eqn:E; [exact E|].
  unfold Set_has. rewrite existsb_app. simpl. rewrite Nat.eqb_refl.
  rewrite orb_true_r. reflexivity.
Qed.

Lemma onSet_own_path_witness :
  let cb := mkCallback 1 false in
  let child := mkStateMethodsImpl [SStr "a"; SStr "b"] (VNum 1) 0 cb false None false
                 (Used false (VNum 1)) None in
  let n := mkStateMethodsImpl [SStr "a"] (VObject [("b", VNum 1)]) 0 cb false
             (Some [("b", child)]) true (Used true (VObject [("b", VNum 1)])) None in
  onSet n (mkAd [] None) []
  = Ok (true, set_childrenUsed None (delete_selfUsed n), Set_add (onSetUsed n) []).
Proof.
  intros cb child n. apply (onSet_own_path n (mkAd [] None) []).
  - simpl; lia.
  - reflexivity.
  - reflexivity.
Defined.

(** ** The life of a pending promise *)

Lemma is_object_truthy (v : value) : is_object v = true -> truthy v = true.
Proof. destruct v; simpl; try discriminate; reflexivity. Qed.

(** A new store has edition 0 and satisfies the invariant as an
    equivalence: the root is [none] exactly when a [Promised] object is
    held.  The root is [none] when the initial value is promise-like and
    is the initial value otherwise.  A held [Promised] object has a
    resolver exactly when the initial value was not promise-like, and it
    is not fulfilled. *)
Theorem Store_constructor_cases (configuration : Configuration) (v : value) :
  none_iff_pending (Store_constructor configuration v) /\
  _edition (Store_constructor configuration v) = 0 /\
  _value (Store_constructor configuration v)
  = (if is_promise_like configuration v then none else v) /\
  (forall p, _promised (Store_constructor configuration v) = Some p ->
             resolver p = negb (is_promise_like configuration v) /\
             fullfilled p = false).
Proof.
  unfold Store_constructor, none_iff_pending.
  destruct (is_promise_like configuration v) eqn:Hp; simpl.
  - apply andb_true_iff in Hp as [Ho _]. rewrite (is_object_truthy v Ho). simpl.
    split; [split; eauto|]. split; [reflexivity|]. split; [reflexivity|].
    intros q [= <-]. auto.
  - destruct (is_none v) eqn:Hn; simpl.
    + destruct v; try discriminate.
      split; [split; eauto|]. split; [reflexivity|]. split; [reflexivity|].
      intros q [= <-]. auto.
    + split; [split|].
      * intros ->. discriminate.
      * intros [x Hx]. discriminate.
      * split; [reflexivity|]. split; [reflexivity|]. discriminate.
Qed.

(** When the source promise of the [Promised] object the store holds is
    fulfilled with a plain value, the store drops the object, takes the
    value as its root and counts one write, whatever the subscribers do. *)
Theorem Promised_then_sets_root (configuration : Configuration) (s : Store)
  (p : Promised) (r : value) :
  0 <= _edition s ->
  _promised s = Some p -> resolver p = false ->
  is_none r = false -> is_promise_like configuration r = false ->
  _value (Promised_then configuration (promised_id p) r s).2 = r /\
  _promised (Promised_then configuration (promised_id p) r s).2 = None /\
  _edition (Promised_then configuration (promised_id p) r s).2 = _edition s + 1.
Proof.
  intros He Hp Hr Hn Hpl. unfold Promised_then. unfold_M.
  rewrite Hp, Nat.eqb_refl, Hr. unfold catch_all, onResolve. unfold_M.
  rewrite Nat.eqb_refl. unfold DestroyedEdition.
  destruct (Z.eqb_spec (_edition s) (-1)); [lia|]. simpl.
  unfold Store_set. unfold_M. destruct (Z.ltb_spec (_edition s) 0); [lia|]. simpl.
  set (s0 := set_promised None
               (set_promised
                  (Some (mkPromised (promised_id p) (promise p) true (error p) false)) s)).
  assert (0 <= _edition s0) as He0 by (simpl; lia).
  destruct (Store_set_root_outcome configuration s0 (mkAd RootPath None) r VUndefined He0)
    as [(_ & _ & Hb & _)|(s1 & Hs1 & _)]; [discriminate Hb|].
  rewrite Hs1.
  destruct (Store_set_root_written _ _ _ _ _ _ _ He0 Hn Hpl Hs1)
    as (_ & Hv & Hed & Hpr & _).
  destruct (Store_update (mkAd RootPath None) s1) as [ru s2] eqn:Eu.
  destruct (Store_update_same_data _ _ _ _ Eu) as (He2 & Hv2 & Hp2 & _).
  assert (_value s2 = r /\ _promised s2 = None /\ _edition s2 = _edition s + 1) as H2.
  { rewrite He2, Hv2, Hp2, Hv, Hed, Hpr. simpl. auto. }
  destruct ru as [[]| |]; exact H2.
Qed.

Lemma Promised_then_sets_root_witness :
  let s := Store_constructor default_configuration (VPromise 1) in
  let p := mkPromised 0 (Some (VPromise 1)) false None false in
  _value (Promised_then default_configuration (promised_id p) (VNum 7) s).2 = VNum 7 /\
  _promised (Promised_then default_configuration (promised_id p) (VNum 7) s).2 = None /\
  _edition (Promised_then default_configuration (promised_id p) (VNum 7) s).2
  = _edition s + 1.
Proof.
  intros s p.
  apply (Promised_then_sets_root default_configuration s p (VNum 7)).
  - simpl; lia.
  - reflexivity.
  - reflexivity.
  - reflexivity.
  - reflexivity.
Defined.

(** The settlement of a [Promised] object that the store does not hold
    any more, because a later root write replaced it, has no effect on the
    store. *)
Theorem settlement_of_replaced_promise (configuration : Configuration) (s : Store)
  (id : nat) (r : value) :
  (forall p, _promised s = Some p -> promised_id p <> id) ->
  Promised_then configuration id r s = (Ok tt, s) /\
  Promised_catch id r s = (Ok tt, s).
Proof.
  intros H. unfold Promised_then, Promised_catch. unfold_M.
  destruct (_promised s) as [p|]; [|split; reflexivity].
  specialize (H p eq_refl). apply Nat.eqb_neq in H. rewrite H. split; reflexivity.
Qed.

Lemma settlement_of_replaced_promise_witness :
  let s := (Store_set default_configuration (mkAd [] None) (VPromise 2) VUndefined
              (Store_constructor default_configuration (VPromise 1))).2 in
  Promised_then default_configuration 0 (VNum 7) s = (Ok tt, s) /\
  Promised_catch 0 (VNum 7) s = (Ok tt, s).
Proof.
  intros s. apply (settlement_of_replaced_promise default_configuration s 0 (VNum 7)).
  intros p [= <-]. discriminate.
Defined.

(** A root write of [none] puts the store into the pending state with a
    [Promised] object that has a resolver; the next plain root write then
    succeeds, calls every plugin callback with an argument without
    [previous], and calls the resolver once with the written value. *)
Theorem Store_set_none_then_value (configuration : Configuration) (s : Store)
  (ad : SetActionDescriptor) (v mergeValue mergeValue' : value) :
  0 <= _edition s -> path ad = [] ->
  is_none v = false -> is_promise_like configuration v = false ->
  exists s1 s2 p,
    Store_set configuration ad none mergeValue s = (Ok ad, s1) /\
    _value s1 = none /\ _promised s1 = Some p /\
    resolver p = true /\ fullfilled p = false /\
    Store_set configuration ad v mergeValue' s1 = (Ok ad, s2) /\
    _value s2 = v /\ _edition s2 = _edition s + 2 /\
    trace s2
    = (trace s1 ++
       map (fun cb => PluginOnSet cb (mkOnSetArg [] (Some v) None (Some v) mergeValue'))
         (_setSubscribers s) ++
       [ResolverCalled (promised_id p) v])%list.
Proof.
  intros He Hpath Hn Hp. unfold Store_set. unfold_M.
  destruct (Z.ltb_spec (_edition s) 0); [lia|].
  rewrite Hpath. simpl. unfold Store_set_root. unfold_M.
  rewrite Store_afterSet_live by (simpl; lia). simpl.
  rewrite andb_false_r. simpl.
  eexists _, _, _. split; [reflexivity|]. simpl.
  do 4 (split; [reflexivity|]).
  destruct (Z.ltb_spec (_edition s + 1) 0); [lia|].
  rewrite Hn, Hp. simpl.
  rewrite Store_afterSet_live by (simpl; lia). simpl.
  rewrite Hn. simpl. rewrite Hpath.
  split; [reflexivity|]. simpl. split; [reflexivity|]. split; [lia|].
  rewrite <- app_assoc. reflexivity.
Qed.

Lemma Store_set_none_then_value_witness :
  let s := Store_constructor default_configuration (VNum 1) in
  exists s1 s2 p,
    Store_set default_configuration (mkAd [] None) none VUndefined s
    = (Ok (mkAd [] None), s1) /\
    _value s1 = none /\ _promised s1 = Some p /\
    resolver p = true /\ fullfilled p = false /\
    Store_set default_configuration (mkAd [] None) (VNum 2) VNull s1
    = (Ok (mkAd [] None), s2) /\
    _value s2 = VNum 2 /\ _edition s2 = _edition s + 2 /\
    trace s2
    = (trace s1 ++
       map (fun cb => PluginOnSet cb (mkOnSetArg [] (Some (VNum 2)) None
                                        (Some (VNum 2)) VNull))
         (_setSubscribers s) ++
       [ResolverCalled (promised_id p) (VNum 2)])%list.
Proof.
  intros s.
  apply (Store_set_none_then_value default_configuration s (mkAd [] None)
           (VNum 2) VUndefined VNull).
  - simpl; lia.
  - reflexivity.
  - reflexivity.
  - reflexivity.
Defined.

(** A root write of a promise-like value makes the root [none] and holds a
    [Promised] object without a resolver; until that promise settles every
    plain root write throws [SetStateWhenPromised]. *)
Theorem Store_set_promise_blocks_writes (configuration : Configuration) (s : Store)
  (ad : SetActionDescriptor) (pv v mergeValue mergeValue' : value) :
  0 <= _edition s -> path ad = [] ->
  is_promise_like configuration pv = true ->
  is_none v = false -> is_promise_like configuration v = false ->
  exists s1,
    Store_set configuration ad pv mergeValue s = (Ok ad, s1) /\
    _value s1 = none /\
    Store_set configuration ad v mergeValue' s1
    = (Throw (StateInvalidUsageError [] SetStateWhenPromised), s1).
Proof.
  intros He Hpath Hpv Hn Hp. unfold Store_set. unfold_M.
  destruct (Z.ltb_spec (_edition s) 0); [lia|].
  rewrite Hpath. simpl. unfold Store_set_root. unfold_M.
  assert (is_none pv = false) as Hnpv.
  { apply andb_true_iff in Hpv as [Ho _]. destruct pv; try discriminate; reflexivity. }
  assert (truthy pv = true) as Htr.
  { apply andb_true_iff in Hpv as [Ho _]. apply is_object_truthy, Ho. }
  rewrite Hnpv, Hpv. simpl.
  rewrite Store_afterSet_live by (simpl; lia). simpl.
  rewrite andb_false_r. simpl. rewrite Htr. simpl.
  eexists. split; [reflexivity|]. simpl. split; [reflexivity|].
  destruct (Z.ltb_spec (_edition s + 1) 0); [lia|].
  rewrite Hn, Hp, Hpath. reflexivity.
Qed.

Lemma Store_set_promise_blocks_writes_witness :
  let s := Store_constructor default_configuration (VNum 1) in
  exists s1,
    Store_set default_configuration (mkAd [] None) (VPromise 3) VUndefined s
    = (Ok (mkAd [] None), s1) /\
    _value s1 = none /\
    Store_set default_configuration (mkAd [] None) (VNum 2) VUndefined s1
    = (Throw (StateInvalidUsageError [] SetStateWhenPromised), s1).
Proof.
  intros s.
  apply (Store_set_promise_blocks_writes default_configuration s (mkAd [] None)
           (VPromise 3) (VNum 2) VUndefined VUndefined).
  - simpl; lia.
  - reflexivity.
  - reflexivity.
  - reflexivity.
  - reflexivity.
Defined.

(** ** Reading while pending and after a rejection *)

Lemma getUntracked_pending (n : StateMethodsImpl) (s : Store) :
  _value s = none -> valueSource n = none -> valueUsed n = ValueUnusedMarker ->
  exists n',
    valueUsed n' = ValueUnusedMarker /\ valueSource n' = none /\
    this_path n' = this_path n /\ downgraded n' = downgraded n /\
    getUntracked true (n, s) = (Ok none, (n', s)) /\
    getUntracked false (n, s)
    = (match _promised s with
       | Some (mkPromised _ _ _ (Some err) _) =>
           if truthy err then Throw (Thrown err)
           else Throw (StateInvalidUsageError (this_path n) GetStateWhenPromised)
       | _ => Throw (StateInvalidUsageError (this_path n) GetStateWhenPromised)
       end, (n', s)).
Proof.
  destruct n as [p vs ve cb dg cu su vu subs].
  destruct s as [e v pr ss sets dess pls np tr]. simpl.
  intros -> -> ->.
  unfold getUntracked, Store_get, get_cached, isMounted. unfold_M.
  destruct (negb (ve =? e)); simpl.
  - destruct (negb (UnmountedMarker cb)); simpl.
    + eexists. split; [|split; [|split; [|split; [|split]]]].
      5: reflexivity. all: try reflexivity.
      destruct pr as [[? ? ? [err|] ?]|]; try reflexivity.
      destruct (truthy err); reflexivity.
    + eexists. split; [|split; [|split; [|split; [|split]]]].
      5: reflexivity. all: try reflexivity.
      destruct pr as [[? ? ? [err|] ?]|]; try reflexivity.
      destruct (truthy err); reflexivity.
  - eexists. split; [|split; [|split; [|split; [|split]]]].
    5: reflexivity. all: try reflexivity.
    destruct pr as [[? ? ? [err|] ?]|]; try reflexivity.
    destruct (truthy err); reflexivity.
Qed.

(** When the promise of a pending store is rejected, the store counts one
    write and keeps the error: a node that then reads the value gets the
    rejection error thrown, [error] returns it, and [promised] is
    [false]. *)
Theorem Promised_catch_then_read (n : StateMethodsImpl) (s : Store) (p : Promised)
  (err : value) :
  0 <= _edition s -> _value s = none -> _promised s = Some p ->
  valueSource n = none -> valueUsed n = ValueUnusedMarker -> truthy err = true ->
  _edition (Promised_catch (promised_id p) err s).2 = _edition s + 1 /\
  (getUntracked false (n, (Promised_catch (promised_id p) err s).2)).1
  = Throw (Thrown err) /\
  (get_error (n, (Promised_catch (promised_id p) err s).2)).1 = Ok (Some err) /\
  (get_promised (n, (Promised_catch (promised_id p) err s).2)).1 = Ok false.
Proof.
  intros He Hv Hp Hs Hu Ht.
  assert (_edition (Promised_catch (promised_id p) err s).2 = _edition s + 1 /\
          _value (Promised_catch (promised_id p) err s).2 = none /\
          _promised (Promised_catch (promised_id p) err s).2
          = Some (mkPromised (promised_id p) (promise p) true (Some err) (resolver p)))
    as (He' & Hv' & Hp').
  { unfold Promised_catch, onReject. unfold_M. rewrite Hp, Nat.eqb_refl. simpl.
    rewrite ?Nat.eqb_refl. unfold DestroyedEdition.
    destruct (Z.eqb_spec (_edition s) (-1)); [lia|]. simpl.
    match goal with
    | |- context [Store_update ?ad ?s0] =>
        destruct (Store_update ad s0) as [ru s2] eqn:Eu;
        destruct (Store_update_same_data _ _ _ _ Eu) as (H1 & H2 & H3 & _)
    end.
    simpl. rewrite H1, H2, H3. simpl. auto. }
  set (s' := (Promised_catch (promised_id p) err s).2) in *.
  destruct (getUntracked_pending n s' Hv' Hs Hu)
    as (n' & Hu' & Hs' & Hpath & Hdg & Hgt & Hgf).
  split; [exact He'|]. split.
  { rewrite Hgf, Hp'. simpl. rewrite Ht. reflexivity. }
  assert (get true (n, s') = (Ok (Used false none), (set_valueUsed (Used false none) n', s')))
    as Hget.
  { unfold get. unfold bind at 1. rewrite Hgt. unfold get_cached. unfold_M.
    rewrite Hu'. destruct (downgraded n'); reflexivity. }
  split.
  - unfold get_error. unfold bind at 1. rewrite Hget. simpl.
    unfold_M. rewrite Hp'. reflexivity.
  - unfold get_promised. unfold bind at 1. rewrite Hget. unfold_M. rewrite Hp'.
    reflexivity.
Qed.

Lemma Promised_catch_then_read_witness :
  let s := Store_constructor default_configuration (VPromise 1) in
  let p := mkPromised 0 (Some (VPromise 1)) false None false in
  let n := mkStateMethodsImpl [] none 0 OnSetUsedNoAction false None false
             ValueUnusedMarker None in
  _edition (Promised_catch (promised_id p) (VStr "failed") s).2 = _edition s + 1 /\
  (getUntracked false (n, (Promised_catch (promised_id p) (VStr "failed") s).2)).1
  = Throw (Thrown (VStr "failed")) /\
  (get_error (n, (Promised_catch (promised_id p) (VStr "failed") s).2)).1
  = Ok (Some (VStr "failed")) /\
  (get_promised (n, (Promised_catch (promised_id p) (VStr "failed") s).2)).1 = Ok false.
Proof.
  intros s p n.
  apply (Promised_catch_then_read n s p (VStr "failed")).
  - simpl; lia.
  - reflexivity.
  - reflexivity.
  - reflexivity.
  - reflexivity.
  - reflexivity.
Defined.

(** ** Plugins and destruction *)

Lemma Store_getPlugin_app (id : nat) (cbs : PluginCallbacks) (s : Store)
  (l : list (nat * PluginCallbacks)) :
  List.find (fun e => Nat.eqb (fst e) id) l = None ->
  List.find (fun e => Nat.eqb (fst e) id) (l ++ [(id, cbs)]) = Some (id, cbs).
Proof.
  induction l as [|[i c] l IH]; simpl.
  - rewrite Nat.eqb_refl. reflexivity.
  - destruct (Nat.eqb i id); [discriminate|]. exact IH.
Qed.

(** A plugin is registered once per identifier: after [register] the store
    knows callbacks for the identifier, and registering any plugin with the
    same identifier again changes nothing, so its callbacks are not added
    a second time. *)
Theorem Store_register_once (plugin plugin' : Plugin) (s : Store) :
  plugin_id plugin' = plugin_id plugin ->
  is_Some (Store_getPlugin (plugin_id plugin) (Store_register plugin s).2) /\
  Store_register plugin' (Store_register plugin s).2
  = (Ok tt, (Store_register plugin s).2).
Proof.
  intros Hid.
  assert (is_Some (Store_getPlugin (plugin_id plugin) (Store_register plugin s).2)) as H.
  { unfold Store_register. unfold_M.
    destruct (Store_getPlugin (plugin_id plugin) s) as [c|] eqn:E; simpl.
    - rewrite E. eauto.
    - unfold Store_getPlugin in *. simpl.
      destruct (List.find _ (_plugins s)) eqn:F; [discriminate|].
      rewrite (Store_getPlugin_app _ _ s _ F). simpl. eauto. }
  split; [exact H|].
  unfold Store_register at 1. unfold_M. rewrite Hid.
  destruct H as [c ->]. reflexivity.
Qed.

Lemma Store_register_once_witness :
  let plugin := mkPlugin 4 (Some (mkPluginCallbacks (Some 1%nat) (Some 2%nat))) in
  let plugin' := mkPlugin 4 (Some (mkPluginCallbacks (Some 8%nat) None)) in
  let s := Store_constructor default_configuration (VNum 1) in
  is_Some (Store_getPlugin (plugin_id plugin) (Store_register plugin s).2) /\
  Store_register plugin' (Store_register plugin s).2
  = (Ok tt, (Store_register plugin s).2).
Proof.
  intros plugin plugin' s. apply (Store_register_once plugin plugin' s). reflexivity.
Defined.

(** [destroy] does not look at the edition: destroying a store a second
    time calls every destroy callback a second time. *)
Theorem Store_destroy_twice (s : Store) :
  trace (Store_destroy (Store_destroy s).2).2
  = (trace s ++
     map (fun cb => PluginOnDestroy cb
                      (if is_none (_value s) then None else Some (_value s)))
       (_destroySubscribers s) ++
     map (fun cb => PluginOnDestroy cb
                      (if is_none (_value s) then None else Some (_value s)))
       (_destroySubscribers s))%list /\
  _edition (Store_destroy (Store_destroy s).2).2 = DestroyedEdition.
Proof.
  unfold Store_destroy. unfold_M. rewrite <- app_assoc. split; reflexivity.
Qed.

(** After [destroy] nothing counts as a write any more: [afterSet] neither
    changes the edition nor calls a plugin callback. *)
Theorem Store_afterSet_destroyed (params : PluginCallbacksOnSetArgument) (s : Store) :
  Store_afterSet params (Store_destroy s).2 = (Ok tt, (Store_destroy s).2).
Proof.
  unfold Store_afterSet, Store_destroy. unfold_M. reflexivity.
Qed.

(** ** Reading *)

(** Reading never writes: [Store.get], [getUntracked] and [get] leave the
    store as it is, whatever they return or throw. *)
Theorem reads_keep_store (path : Path) (allowPromised : bool)
  (n : StateMethodsImpl) (s : Store) :
  (Store_get path s).2 = s /\
  (getUntracked allowPromised (n, s)).2.2 = s /\
  (get allowPromised (n, s)).2.2 = s.
Proof.
  split; [apply Store_get_store|]. split; [apply getUntracked_store|].
  unfold get. unfold bind.
  pose proof (getUntracked_store allowPromised n s) as H.
  destruct (getUntracked allowPromised (n, s)) as [[v| |] [n1 s1]]; simpl in H;
    subst s1; try reflexivity.
  apply get_cached_store.
Qed.

(** Reading a property that an object root does not have gives
    [undefined]; reading below it throws a [TypeError]. *)
Theorem Store_get_missing (s : Store) (o : list (string * value)) (k : string)
  (q : PathSegment) (rest : Path) :
  _value s = VObject o -> props_has k o = false -> on_Object_prototype k = false ->
  Store_get [SStr k] s = (Ok VUndefined, s) /\
  Store_get (SStr k :: q :: rest) s = (Throw TypeError, s).
Proof.
  intros Hv Hh Hp. unfold Store_get. unfold_M. rewrite Hv. simpl.
  unfold props_has in Hh. destruct (props_get k o); [discriminate|].
  rewrite Hp. split; reflexivity.
Qed.

Lemma Store_get_missing_witness :
  let s := Store_constructor default_configuration (VObject [("a", VNum 1)]) in
  Store_get [SStr "b"] s = (Ok VUndefined, s) /\
  Store_get (SStr "b" :: SNum 0 :: []) s = (Throw TypeError, s).
Proof.
  intros s. apply (Store_get_missing s [("a", VNum 1)] "b" (SNum 0) []); reflexivity.
Defined.

(** ** Merging arrays *)

Lemma insert_by_nonempty {A : Type} (le : A -> A -> bool) (x : A) (l : list A) :
  insert_by le x l <> [].
Proof. destruct l as [|y l]; simpl; [discriminate|]. destruct (le x y); discriminate. Qed.

Lemma Object_keys_nonempty {A : Type} (o : list (string * A)) :
  o <> [] -> (0 < length (Object_keys o))%nat.
Proof.
  destruct o as [|[k v] o]; [contradiction|]. intros _.
  unfold Object_keys. simpl. rewrite length_app.
  destruct (array_index k) as [i|] eqn:E; simpl.
  - rewrite length_map.
    match goal with
    | |- context [insert_by ?le ?x ?l] =>
        pose proof (insert_by_nonempty le x l) as H; destruct (insert_by le x l)
    end; [contradiction|simpl; lia].
  - rewrite filter_cons. destruct (decide (array_index k = None)); [simpl; lia|].
    contradiction.
Qed.

Lemma props_set_nonempty {A : Type} (k : string) (v : A) (o : list (string * A)) :
  props_set k v o <> [].
Proof.
  destruct o as [|[k' v'] o]; simpl; [discriminate|].
  destruct (String.eqb k' k); discriminate.
Qed.

Lemma props_set_Forall {A : Type} (P : A -> Prop) (k : string) (v : A)
  (o : list (string * A)) :
  P v -> Forall (fun kv => P kv.2) o -> Forall (fun kv => P kv.2) (props_set k v o).
Proof.
  intros Hv. induction 1 as [|[k' v'] o Hx Ho IH]; simpl.
  - constructor; [exact Hv|constructor].
  - destruct (String.eqb k' k); constructor; auto.
Qed.

Lemma foldl_merge_push (src : list value) :
  forall (l : list value) (acts : list (string * action)),
    Forall (fun ka => ka.2 = I) acts ->
    (src <> [] \/ acts <> []) ->
    (foldl merge_push (l, acts) src).1 = (l ++ src)%list /\
    Forall (fun ka => ka.2 = I) (foldl merge_push (l, acts) src).2 /\
    (foldl merge_push (l, acts) src).2 <> [].
Proof.
  induction src as [|e src IH]; intros l acts Ha Hne; simpl.
  - rewrite app_nil_r. destruct Hne as [Hne|Hne]; [contradiction|]. auto.
  - unfold merge_push at 2. simpl.
    destruct (IH (l ++ [e])%list (props_set (pretty (Z.of_nat (length l))) I acts))
      as (H1 & H2 & H3).
    + apply (props_set_Forall (fun a => a = I)); [reflexivity|exact Ha].
    + right. apply props_set_nonempty.
    + rewrite H1, <- app_assoc. auto.
Qed.

(** Merging a non-empty array into an array-valued node appends its
    elements in order: the store then holds the concatenation at the path
    of the node, the edition has grown by one, and every entry of the
    returned action map is an insertion. *)
Theorem merge_array_appends (configuration : Configuration) (n : StateMethodsImpl)
  (s : Store) (l src : list value) :
  0 <= _edition s ->
  Store_get (this_path n) s = (Ok (VArray l), s) ->
  (valueEdition n = _edition s -> valueSource n = VArray l) ->
  src <> [] ->
  is_promise_like configuration (VArray (l ++ src)) = false ->
  (this_path n = [] -> blocks_root_write s = false) ->
  exists n' s' acts,
    mergeUntrackedV4 configuration (SetValue (VArray src)) (n, s)
    = (Ok (Some (mkAd (this_path n) (Some acts))), (n', s')) /\
    Store_get (this_path n) s' = (Ok (VArray (l ++ src)), s') /\
    _edition s' = _edition s + 1 /\
    Forall (fun ka => ka.2 = I) acts.
Proof.
  intros He Hg Hsync Hsrc Hp Hb.
  destruct (getUntracked_synced false n s (VArray l) Hg Hsync eq_refl)
    as (n1 & Hgu & Hp1 & Hs1 & He1); [discriminate|].
  pose proof (Store_get_object _ _ _ Hg eq_refl) as Hw.
  destruct (foldl_merge_push src l [] ltac:(constructor) ltac:(left; exact Hsrc))
    as (Hf1 & Hf2 & Hf3).
  destruct (put_at_exists (_value s) (VArray l) (VArray (l ++ src)) (this_path n) Hw eq_refl)
    as [root1 Hput].
  destruct (Store_set_existing configuration (set_value root1 s)
              (mkAd (this_path n) None) (VArray (l ++ src))
              (VArray (l ++ src)) (VArray src) He)
    as (s' & Hset & Hget & Hed & _); try reflexivity; try assumption.
  { simpl. eapply walk_put_at. exact Hput. }
  eexists _, s', _. split; [|split; [exact Hget|split; [exact Hed|exact Hf2]]].
  unfold mergeUntrackedV4. unfold bind at 1. rewrite Hgu.
  cbv iota beta. unfold merge_commit. unfold bind at 1. unfold gets at 1.
  cbn [fst snd].
  pose proof (Object_keys_nonempty _ Hf3) as Hk.
  destruct (Z.ltb_spec 0 (Z.of_nat (length (Object_keys (foldl merge_push (l, []) src).2))));
    [|lia].
  unfold bind at 1. unfold mutated_in_place.
  unfold bind at 1. unfold gets at 1. unfold bind at 1. unfold gets at 1.
  cbn [fst snd]. unfold bind at 1. unfold lift at 1.
  rewrite Hf1, Hp1, Hput. unfold modify at 1. cbn [fst snd].
  unfold bind at 1. unfold setUntrackedV4.
  unfold bind at 1. unfold ret at 1. unfold bind at 1.
  cbn [is_object negb]. unfold ret at 1. cbv iota.
  unfold bind at 1. unfold gets at 1. cbn [fst snd].
  unfold bind at 1. unfold in_store. cbn [fst snd this_path set_valueSource].
  rewrite Hp1, Hset. cbn [fst snd]. unfold ret. reflexivity.
Qed.

Lemma merge_array_appends_witness :
  let s := Store_constructor default_configuration (VArray [VNum 1; VNum 2]) in
  let n := mkStateMethodsImpl [] (VArray [VNum 1; VNum 2]) 0 OnSetUsedNoAction false
             None false ValueUnusedMarker None in
  exists n' s' acts,
    mergeUntrackedV4 default_configuration (SetValue (VArray [VNum 3])) (n, s)
    = (Ok (Some (mkAd (this_path n) (Some acts))), (n', s')) /\
    Store_get (this_path n) s' = (Ok (VArray ([VNum 1; VNum 2] ++ [VNum 3])), s') /\
    _edition s' = _edition s + 1 /\
    Forall (fun ka => ka.2 = I) acts.
Proof.
  intros s n.
  apply (merge_array_appends default_configuration n s [VNum 1; VNum 2] [VNum 3]).
  - simpl; lia.
  - reflexivity.
  - reflexivity.
  - discriminate.
  - reflexivity.
  - reflexivity.
Defined.

(** Merging an empty array or an empty object into an array or an object
    does nothing: [mergeUntrackedV4] returns [null], the store is not
    written, and [merge] notifies nobody. *)
Theorem merge_empty_source (configuration : Configuration) (n : StateMethodsImpl)
  (s : Store) (cur src : value) :
  Store_get (this_path n) s = (Ok cur, s) ->
  (valueEdition n = _edition s -> valueSource n = cur) ->
  (Array_isArray cur = true \/
   exists o, cur = VObject o /\ props_has "constructor" o = false) ->
  (src = VArray [] \/ src = VObject []) ->
  exists n',
    mergeUntrackedV4 configuration (SetValue src) (n, s) = (Ok None, (n', s)) /\
    merge configuration (SetValue src) (n, s) = (Ok tt, (n', s)).
Proof.
  intros Hg Hsync Hcur Hsrc.
  destruct (getUntracked_synced false n s cur Hg Hsync) as (n1 & Hgu & _).
  { destruct Hcur as [Ha|(o & -> & _)]; [destruct cur; try discriminate|]; reflexivity. }
  { intros o ->. destruct Hcur as [Ha|(o' & [= <-] & Hc)]; [discriminate|exact Hc]. }
  assert (mergeUntrackedV4 configuration (SetValue src) (n, s) = (Ok None, (n1, s)))
    as Hm.
  { unfold mergeUntrackedV4. unfold bind at 1. rewrite Hgu.
    destruct Hcur as [Ha|(o & -> & _)].
    - destruct cur; try discriminate.
      destruct Hsrc as [->| ->]; reflexivity.
    - destruct Hsrc as [->| ->]; reflexivity. }
  exists n1. split; [exact Hm|].
  unfold merge. unfold bind at 1. rewrite Hm. reflexivity.
Qed.

Lemma merge_empty_source_witness :
  let s := Store_constructor default_configuration (VObject [("a", VNum 1)]) in
  let n := mkStateMethodsImpl [] (VObject [("a", VNum 1)]) 0 OnSetUsedNoAction false
             None false ValueUnusedMarker None in
  exists n',
    mergeUntrackedV4 default_configuration (SetValue (VObject [])) (n, s)
    = (Ok None, (n', s)) /\
    merge default_configuration (SetValue (VObject [])) (n, s) = (Ok tt, (n', s)).
Proof.
  intros s n.
  apply (merge_empty_source default_configuration n s (VObject [("a", VNum 1)])
           (VObject [])).
  - reflexivity.
  - reflexivity.
  - right. exists [("a", VNum 1)]. split; reflexivity.
  - right. reflexivity.
Defined.

(** ** The edition counts writes *)

Lemma Store_set_edition (configuration : Configuration) (s : Store)
  (ad : SetActionDescriptor) (v mergeValue : value) :
  _edition (Store_set configuration ad v mergeValue s).2 = _edition s \/
  _edition (Store_set configuration ad v mergeValue s).2 = _edition s + 1.
Proof.
  unfold Store_set. unfold_M.
  destruct (Z.ltb_spec (_edition s) 0); [left; reflexivity|].
  destruct (last (path ad)) as [p|].
  - destruct (Store_set_nested_outcome configuration s ad (removelast (path ad))
                p v mergeValue ltac:(assumption)) as [->|[_ Hed]]; auto.
  - destruct (Store_set_root_outcome configuration s ad v mergeValue ltac:(assumption))
      as [(_ & _ & _ & ->)|(s' & -> & _ & Hed & _)]; auto.
Qed.

(** Every operation other than [destroy] leaves the edition where it is or
    increases it by exactly one: the edition never goes down and never
    skips. *)
Theorem step_edition (configuration : Configuration) (s : Store) (op : Operation) :
  op <> OpDestroy ->
  _edition (step configuration s op) = _edition s \/
  _edition (step configuration s op) = _edition s + 1.
Proof.
  intros Hop. destruct op; simpl; try contradiction.
  - apply Store_set_edition.
  - destruct (Store_update ad s) as [r s'] eqn:E.
    destruct (Store_update_same_data _ _ _ _ E) as [H _]. auto.
  - unfold Promised_then. unfold_M.
    destruct (_promised s) as [p|]; [|auto].
    destruct (Nat.eqb (promised_id p) promised) eqn:Hid; [|auto].
    destruct (resolver p); [auto|].
    unfold catch_all, onResolve. unfold_M. rewrite Hid. simpl.
    destruct (negb (_edition s =? DestroyedEdition)); simpl.
    + match goal with
      | |- context [Store_set ?c ?a ?v ?m ?s0] =>
          pose proof (Store_set_edition c s0 a v m) as Hs;
          destruct (Store_set c a v m s0) as [[ad'| |] s1]
      end; simpl in Hs |- *; auto.
      destruct (Store_update ad' s1) as [ru s2] eqn:E.
      destruct (Store_update_same_data _ _ _ _ E) as [H _].
      destruct ru as [[]| |]; simpl; rewrite H; exact Hs.
    + auto.
  - unfold Promised_catch. unfold_M.
    destruct (_promised s) as [p|]; [|auto].
    destruct (Nat.eqb (promised_id p) promised) eqn:Hid; [|auto].
    unfold onReject. unfold_M. rewrite Hid. simpl.
    destruct (negb (_edition s =? DestroyedEdition)); simpl; [|auto].
    match goal with
    | |- context [Store_update ?a ?s0] =>
        destruct (Store_update a s0) as [ru s2] eqn:E;
        destruct (Store_update_same_data _ _ _ _ E) as [H _]
    end.
    simpl. rewrite H. simpl. auto.
  - unfold Store_register. unfold_M.
    destruct (Store_getPlugin (plugin_id plugin) s); auto.
Qed.

Lemma step_edition_witness :
  let s := Store_constructor default_configuration (VObject [("a", VNum 1)]) in
  let op := OpSet (mkAd [SStr "a"] None) (VNum 2) VUndefined in
  _edition (step default_configuration s op) = _edition s \/
  _edition (step default_configuration s op) = _edition s + 1.
Proof.
  intros s op. apply (step_edition default_configuration s op). discriminate.
Defined.

(** ** Cache invalidation after a single deletion *)

Lemma Object_keys_single {A : Type} (k : string) (v : A) : Object_keys [(k, v)] = [k].
Proof.
  unfold Object_keys. simpl. rewrite filter_cons, filter_nil.
  destruct (array_index k) as [i|] eqn:E; simpl.
  - destruct (decide (Some i = None)); [discriminate|reflexivity].
  - destruct (decide (@None Z = None)); [reflexivity|contradiction].
Qed.

Lemma firstDeletedIndex_single (i : Z) :
  firstDeletedIndex [(pretty i, D)] = Ok (Some i).
Proof.
  unfold firstDeletedIndex. rewrite Object_keys_single.
  cbn [result_map]. unfold Number_of_key, Number. rewrite canonical_integer_pretty.
  cbn [result_bind]. unfold sort_numbers_default, sort_by. cbn [foldr insert_by List.find].
  unfold props_get. rewrite String.eqb_refl. reflexivity.
Qed.

Lemma drop_after_first_single {A : Type} (i : Z) (js : list (Z * A)) :
  drop_after_first (Some i) [(pretty i, D)] (map (fun jc => (pretty jc.1, jc.2)) js)
  = Ok (map (fun jc => (pretty jc.1, jc.2)) (filter (fun jc => jc.1 < i) js)).
Proof.
  induction js as [|[j c] js IH]; [reflexivity|].
  cbn [map drop_after_first fst snd]. unfold Number_of_key, Number.
  rewrite canonical_integer_pretty. cbn [result_bind]. rewrite IH. cbn [result_bind].
  rewrite filter_cons. cbn [fst ge_first].
  destruct (decide (j < i)) as [Hlt|Hge].
  - destruct (Z.leb_spec i j); [lia|]. cbn [orb].
    unfold props_has, props_get.
    destruct (String.eqb_spec (pretty i) (pretty j)) as [Heq|_]; [|reflexivity].
    apply (inj pretty) in Heq. lia.
  - destruct (Z.leb_spec i j); [|lia]. reflexivity.
Qed.

(** When an element of an array is deleted, as [Store.set] reports it with
    one index tagged as deleted, a node over that array whose value is in
    use drops the cached children at the deleted index and after it and
    keeps the children before it; it collects its callback and returns
    [true]. *)
Theorem onSet_single_delete (n : StateMethodsImpl) (ad : SetActionDescriptor)
  (acts : list Callback) (i : Z) (js : list (Z * StateMethodsImpl)) :
  Array_isArray (valueSource n) = true ->
  is_used (valueUsed n) = true -> downgraded n = false ->
  path ad = this_path n -> actions ad = Some [(pretty i, D)] ->
  childrenUsed n = Some (map (fun jc => (pretty jc.1, jc.2)) js) ->
  onSet n ad acts
  = Ok (true,
        set_childrenUsed
          (Some (map (fun jc => (pretty jc.1, jc.2)) (filter (fun jc => jc.1 < i) js)))
          (delete_selfUsed n),
        Set_add (onSetUsed n) acts).
Proof.
  destruct n as [p vs ve cb dg cu su vu subs]. cbn [valueSource valueUsed downgraded
    this_path childrenUsed onSetUsed]. intros Ha Hu -> Hp Hacts ->.
  cbn [onSet]. rewrite Hu, Hp, Hacts. cbn [andb].
  destruct (p !! length p) as [x|] eqn:Hlk; [apply lookup_lt_Some in Hlk; lia|].
  unfold invalidate_children. rewrite Ha.
  assert (includes_D [(pretty i, D)] = true) as ->.
  { unfold includes_D, Object_values. rewrite Object_keys_single.
    unfold omap, list_omap, props_get. rewrite String.eqb_refl. reflexivity. }
  cbn [andb]. rewrite firstDeletedIndex_single. cbn [result_bind].
  rewrite drop_after_first_single. reflexivity.
Qed.

Lemma onSet_single_delete_witness :
  let cb := mkCallback 1 false in
  let arr := VArray [VNum 10; VNum 20; VNum 30] in
  let child j := mkStateMethodsImpl [SNum j] VUndefined 0 cb false None false
                   ValueUnusedMarker None in
  let js := [(0, child 0); (2, child 2)] in
  let n := mkStateMethodsImpl [] arr 0 cb false
             (Some (map (fun jc => (pretty jc.1, jc.2)) js)) true (Used true arr) None in
  let ad := mkAd [] (Some [(pretty 1, D)]) in
  onSet n ad []
  = Ok (true,
        set_childrenUsed
          (Some (map (fun jc => (pretty jc.1, jc.2)) (filter (fun jc => jc.1 < 1) js)))
          (delete_selfUsed n),
        Set_add (onSetUsed n) []).
Proof.
  intros cb arr child js n ad.
  apply (onSet_single_delete n ad [] 1 js); reflexivity.
Defined.
